(** * PdfWriter: the document composition engine of api-doc-baker

    A shallow embedding of the [PdfWriter] class as compiled to
    [pdf-writer.js], the revision that [main.ts] drives: the style stack,
    the outline path array, the page registry, the text helpers and the
    finishing pass.  (The older [src/pdf-writer.ts] has the same outline
    logic inlined in [header] and the same push/pop discipline on a style
    field called [indent]; it sets no cursor and has no page registry. Its
    style stack is embedded in [Legacy], for comparison.)

    A method is a computation on the writer that returns or throws.  The
    PDFKit document the class drives is a record of the state the class
    reads and writes (cursor, active font and colour, pages with their
    margins, outline items) with a log of the drawing calls it receives;
    what PDFKit computes when it lays text out comes from an oracle
    ([Renderer]), and the arithmetic of JavaScript numbers from an
    interface ([JsNumber]).  The properties are proved for every oracle
    and every arithmetic. *)

From Stdlib Require Import ZArith QArith Ascii String List Lia DecimalString.
From stdpp Require Import base list strings.

Open Scope string_scope.

(** ** JavaScript numbers

    Style values are JavaScript numbers.  No property below depends on how
    they round, so the arithmetic is an interface: [lit q] is the numeric
    literal [q], [nan] is what [undefined] converts to inside an arithmetic
    expression. *)
Class JsNumber (num : Type) := {
  lit : Q -> num;
  nan : num;
  nadd : num -> num -> num;
  nsub : num -> num -> num;
  nmul : num -> num -> num;
  ndiv : num -> num -> num
}.

(** [ToNumber]: a value that may be [undefined] used as an operand. *)
Definition to_num {num : Type} `{JsNumber num} (v : option num) : num :=
  default nan v.

(** JavaScript truthiness of a string that may be [undefined]. *)
Definition truthy (s : option string) : bool :=
  match s with
  | Some "" => false
  | Some _ => true
  | None => false
  end.

(** The double-quote character, as a string. *)
Definition dquote : string := String (ascii_of_nat 34) EmptyString.

(** Template-literal printing of integers. *)
Definition show_nat (n : nat) : string := NilZero.string_of_uint (Nat.to_uint n).
Definition show_Z (z : Z) : string := NilZero.string_of_int (Z.to_int z).

(** [String.prototype.toLowerCase], on ASCII letters. *)
Definition lower_ascii (c : ascii) : ascii :=
  let n := nat_of_ascii c in
  if (65 <=? n)%nat && (n <=? 90)%nat then ascii_of_nat (n + 32) else c.

Fixpoint toLowerCase (s : string) : string :=
  match s with
  | EmptyString => EmptyString
  | String c r => String (lower_ascii c) (toLowerCase r)
  end.

Inductive EFont := NORM | BOLD | ITALIC | BOLD_ITALIC | MONOSPACED.

Definition EFont_index (f : EFont) : nat :=
  match f with
  | NORM => 0 | BOLD => 1 | ITALIC => 2 | BOLD_ITALIC => 3 | MONOSPACED => 4
  end.

Definition fonts : list string :=
  ["Helvetica"; "Helvetica-Bold"; "Helvetica-Oblique";
   "Helvetica-BoldOblique"; "Courier-Bold"].

(** An entry of the bookmark tree held by PDFKit: [item_parent = None] for
    an item added to [doc.outline] itself. Items are referred to by their
    index in [doc_outline], which stands for the object reference. *)
Record OutlineItem := {
  item_parent : option nat;
  item_title : string
}.

(** ** Effects

    A method runs on the writer and either returns or throws; what it did
    to the writer before throwing stays done.  [M S A] is a computation on
    a state [S] with that behaviour. *)

Inductive result (A : Type) :=
| Ok (a : A)
| Throw (msg : string).
Arguments Ok {A} a.
Arguments Throw {A} msg.

Definition M (S A : Type) : Type := S -> S * result A.

Definition ret {S A : Type} (a : A) : M S A := fun w => (w, Ok a).

Definition bind {S A B : Type} (m : M S A) (k : A -> M S B) : M S B :=
  fun w =>
    match m w with
    | (w', Ok a) => k a w'
    | (w', Throw e) => (w', Throw e)
    end.

Definition throw {S A : Type} (msg : string) : M S A :=
  fun w => (w, Throw msg).

Definition get {S : Type} : M S S := fun w => (w, Ok w).

Definition modify {S : Type} (f : S -> S) : M S unit :=
  fun w => (f w, Ok tt).

Definition when {S : Type} (b : bool) (m : M S unit) : M S unit :=
  if b then m else ret tt.

Declare Scope writer_scope.
Delimit Scope writer_scope with writer.
Notation "x <- m ;; k" := (bind m (fun x => k))
  (at level 100, m at next level, k at level 200, right associativity,
   only parsing) : writer_scope.
Notation "m ;; k" := (bind m (fun _ => k))
  (at level 100, k at level 200, right associativity, only parsing)
  : writer_scope.
Open Scope writer_scope.

(** [array.forEach((value, index) => ...)] *)
Fixpoint forEachFrom {S A : Type} (index : nat) (l : list A)
    (f : A -> nat -> M S unit) : M S unit :=
  match l with
  | [] => ret tt
  | value :: rest => f value index ;; forEachFrom (Datatypes.S index) rest f
  end.

Definition forEach {S A : Type} (l : list A) (f : A -> nat -> M S unit)
    : M S unit :=
  forEachFrom 0 l f.

(** [for (let i = start; i < start + count; i++) body(i)] *)
Fixpoint forRange {S : Type} (start count : nat) (body : nat -> M S unit)
    : M S unit :=
  match count with
  | 0 => ret tt
  | Datatypes.S c => body start ;; forRange (Datatypes.S start) c body
  end.

(** [state] and [outcome] of a run. *)
Definition state {S A : Type} (r : S * result A) : S := fst r.
Definition outcome {S A : Type} (r : S * result A) : result A := snd r.

(** [wp m Q w]: run from [w], [m] returns normally, with a value and in a
    state that satisfy [Q]. *)
Definition wp {S A : Type} (m : M S A) (Q : A -> S -> Prop) (w : S) : Prop :=
  exists a w', m w = (w', Ok a) /\ Q a w'.

(** [steady Rel m]: [m] always returns normally, in a state related by
    [Rel] to the state it started from. *)
Definition steady {S A : Type} (Rel : S -> S -> Prop) (m : M S A) : Prop :=
  forall w, wp m (fun _ w' => Rel w w') w.

(** [keeps Rel m]: whether [m] returns or throws, the state it leaves is
    related by [Rel] to the state it started from. *)
Definition keeps {S A : Type} (Rel : S -> S -> Prop) (m : M S A) : Prop :=
  forall w, Rel w (state (m w)).

Section Model.
Context {num : Type} `{JsNumber num}.

(** *** Data model *)

(** A style of the stack; [None] is a field that reads [undefined]. *)
Record TextStyle := {
  font : option EFont;
  fontSize : option num;
  fillColor : option string;
  leftMargin : option num;
  lineGap : option num
}.

(** A partial style given to [pushStyle]: the outer [None] is an absent
    key, [Some None] a key that is present with the value [undefined]. *)
Record StylePatch := {
  pFont : option (option EFont);
  pFontSize : option (option num);
  pFillColor : option (option string);
  pLeftMargin : option (option num);
  pLineGap : option (option num)
}.

Definition emptyPatch : StylePatch :=
  {| pFont := None; pFontSize := None; pFillColor := None;
     pLeftMargin := None; pLineGap := None |}.

Definition hasKey {A : Type} (k : option A) : nat :=
  match k with Some _ => 1 | None => 0 end.

(** [Object.keys(style).length] *)
Definition patchKeys (p : StylePatch) : nat :=
  hasKey (pFont p) + hasKey (pFontSize p) + hasKey (pFillColor p) +
  hasKey (pLeftMargin p) + hasKey (pLineGap p).

Record TextOptions := {
  opt_x : option num;
  opt_y : option num;
  continued : option bool;
  destination : option string;
  goTo : option string;
  underline : option bool;
  indent : option num;
  align : option string
}.

Definition noOptions : TextOptions :=
  {| opt_x := None; opt_y := None; continued := None; destination := None;
     goTo := None; underline := None; indent := None; align := None |}.

(** The configurable style; a leaf that the configuration object lacks
    reads [undefined]. *)
Record ColorStyle := {
  main : option string;
  secondary : option string;
  highlight : option string;
  headers : option string;
  subHeaders : option string;
  getMethod : option string;
  putMethod : option string;
  postMethod : option string;
  patchMethod : option string;
  deleteMethod : option string;
  otherMethods : option string
}.

Record FontStyle := { baseSize : option num }.

Record FormatStyle := {
  indentStep : option num;
  horizontalMargin : option num;
  verticalMargin : option num
}.

Record ApiStyle := {
  style_color : ColorStyle;
  style_font : FontStyle;
  style_format : FormatStyle
}.

Definition defaultStyle : ApiStyle :=
  {| style_color :=
       {| main := Some "#333333"; secondary := Some "#6B7B8E";
          highlight := Some "#8A3324"; headers := Some "#2A4D69";
          subHeaders := Some "#4B86B4"; getMethod := Some "#4A90E2";
          putMethod := Some "#6B8E23"; postMethod := Some "#D87F0A";
          patchMethod := Some "#C2A000"; deleteMethod := Some "#D0021B";
          otherMethods := Some "#2A4D69" |};
     style_font := {| baseSize := Some (lit 10) |};
     style_format :=
       {| indentStep := Some (lit 12); horizontalMargin := Some (lit 70);
          verticalMargin := Some (lit 50) |} |}.

(** *** The PDFKit document *)

Record Margins := {
  left : option num;
  right : option num;
  top : option num;
  bottom : option num
}.

Record Page := {
  height : num;
  margins : Margins
}.

(** The arguments of one [doc.text] call: the string, the coordinates when
    the call is the absolute form [doc.text(str, x, y, opt)], and the
    options object with the [lineGap] that [textImpl] puts in front. *)
Record TextCall := {
  call_str : string;
  call_pos : option (option num * num);
  call_lineGap : option num;
  call_options : TextOptions
}.

(** A drawing call as the document receives it: for text, the page it
    is issued on, that page's margins at that moment, the fill colour the
    document tracks (the one last set with [fillColor]) and the call. *)
Inductive DrawOp :=
| DrawText (page : nat) (pageMargins : option Margins) (fill : option string)
    (c : TextCall)
| DrawRect (page : nat) (rx : option num) (ry rw rh : num)
    (color : option string).

Record PDFDocument := {
  doc_x : option num;
  doc_y : num;
  doc_font : option string;
  doc_fontSize : option num;
  doc_fillColor : option string;
  doc_margins : Margins;
  doc_pages : list Page;
  doc_page : nat;
  doc_outline : list OutlineItem;
  doc_ops : list DrawOp;
  doc_output : option string;
  doc_ended : bool
}.

(** What PDFKit computes and the class only reads back. *)
Class Renderer := {
  initialCursor : num * num;
  pageHeight : num;
  pageCursor : PDFDocument -> num * num;
  textLayout : PDFDocument -> TextCall -> num * num * nat;
  widthOfString : PDFDocument -> string -> num;
  heightOfString : PDFDocument -> string -> num;
  moveDownY : PDFDocument -> num -> num;
  moveUpY : PDFDocument -> num
}.

(** *** The writer *)

Record PdfWriter := {
  style : ApiStyle;
  currentSectionName : string;
  pageNumber : nat;
  pageHeaderNodes : list string;
  docOutlines : list nat;
  styleStack : list TextStyle;
  headerGap : num;
  paraGap : num;
  baseStyle : TextStyle;
  doc : PDFDocument
}.

Definition set_doc (d : PDFDocument) (w : PdfWriter) : PdfWriter :=
  {| style := style w; currentSectionName := currentSectionName w;
     pageNumber := pageNumber w; pageHeaderNodes := pageHeaderNodes w;
     docOutlines := docOutlines w; styleStack := styleStack w;
     headerGap := headerGap w; paraGap := paraGap w;
     baseStyle := baseStyle w; doc := d |}.

Definition set_styleStack (s : list TextStyle) (w : PdfWriter) : PdfWriter :=
  {| style := style w; currentSectionName := currentSectionName w;
     pageNumber := pageNumber w; pageHeaderNodes := pageHeaderNodes w;
     docOutlines := docOutlines w; styleStack := s;
     headerGap := headerGap w; paraGap := paraGap w;
     baseStyle := baseStyle w; doc := doc w |}.

Definition set_docOutlines (o : list nat) (w : PdfWriter) : PdfWriter :=
  {| style := style w; currentSectionName := currentSectionName w;
     pageNumber := pageNumber w; pageHeaderNodes := pageHeaderNodes w;
     docOutlines := o; styleStack := styleStack w;
     headerGap := headerGap w; paraGap := paraGap w;
     baseStyle := baseStyle w; doc := doc w |}.

Definition set_currentSectionName (n : string) (w : PdfWriter) : PdfWriter :=
  {| style := style w; currentSectionName := n;
     pageNumber := pageNumber w; pageHeaderNodes := pageHeaderNodes w;
     docOutlines := docOutlines w; styleStack := styleStack w;
     headerGap := headerGap w; paraGap := paraGap w;
     baseStyle := baseStyle w; doc := doc w |}.

(** The [pageAdded] handler registered by the constructor. *)
Definition onPageAdded (w : PdfWriter) : PdfWriter :=
  {| style := style w; currentSectionName := currentSectionName w;
     pageNumber := S (pageNumber w);
     pageHeaderNodes := pageHeaderNodes w ++ [currentSectionName w];
     docOutlines := docOutlines w; styleStack := styleStack w;
     headerGap := headerGap w; paraGap := paraGap w;
     baseStyle := baseStyle w; doc := doc w |}.

Definition set_cursor (cx : option num) (cy : num) (d : PDFDocument)
    : PDFDocument :=
  {| doc_x := cx; doc_y := cy; doc_font := doc_font d;
     doc_fontSize := doc_fontSize d; doc_fillColor := doc_fillColor d;
     doc_margins := doc_margins d; doc_pages := doc_pages d;
     doc_page := doc_page d; doc_outline := doc_outline d;
     doc_ops := doc_ops d; doc_output := doc_output d;
     doc_ended := doc_ended d |}.

Definition set_active (f : option string) (sz : option num)
    (c : option string) (d : PDFDocument) : PDFDocument :=
  {| doc_x := doc_x d; doc_y := doc_y d; doc_font := f;
     doc_fontSize := sz; doc_fillColor := c;
     doc_margins := doc_margins d; doc_pages := doc_pages d;
     doc_page := doc_page d; doc_outline := doc_outline d;
     doc_ops := doc_ops d; doc_output := doc_output d;
     doc_ended := doc_ended d |}.

Definition set_pages (ps : list Page) (cur : nat) (d : PDFDocument)
    : PDFDocument :=
  {| doc_x := doc_x d; doc_y := doc_y d; doc_font := doc_font d;
     doc_fontSize := doc_fontSize d; doc_fillColor := doc_fillColor d;
     doc_margins := doc_margins d; doc_pages := ps;
     doc_page := cur; doc_outline := doc_outline d;
     doc_ops := doc_ops d; doc_output := doc_output d;
     doc_ended := doc_ended d |}.

Definition set_outline (o : list OutlineItem) (d : PDFDocument)
    : PDFDocument :=
  {| doc_x := doc_x d; doc_y := doc_y d; doc_font := doc_font d;
     doc_fontSize := doc_fontSize d; doc_fillColor := doc_fillColor d;
     doc_margins := doc_margins d; doc_pages := doc_pages d;
     doc_page := doc_page d; doc_outline := o;
     doc_ops := doc_ops d; doc_output := doc_output d;
     doc_ended := doc_ended d |}.

Definition log_op (o : DrawOp) (d : PDFDocument) : PDFDocument :=
  {| doc_x := doc_x d; doc_y := doc_y d; doc_font := doc_font d;
     doc_fontSize := doc_fontSize d; doc_fillColor := doc_fillColor d;
     doc_margins := doc_margins d; doc_pages := doc_pages d;
     doc_page := doc_page d; doc_outline := doc_outline d;
     doc_ops := doc_ops d ++ [o]; doc_output := doc_output d;
     doc_ended := doc_ended d |}.

Definition set_ended (d : PDFDocument) : PDFDocument :=
  {| doc_x := doc_x d; doc_y := doc_y d; doc_font := doc_font d;
     doc_fontSize := doc_fontSize d; doc_fillColor := doc_fillColor d;
     doc_margins := doc_margins d; doc_pages := doc_pages d;
     doc_page := doc_page d; doc_outline := doc_outline d;
     doc_ops := doc_ops d; doc_output := doc_output d;
     doc_ended := true |}.

Definition set_page (p : Page) (d : PDFDocument) : PDFDocument :=
  set_pages (<[doc_page d := p]> (doc_pages d)) (doc_page d) d.

#[local] Abbreviation W := (M PdfWriter).

Definition modifyDoc (f : PDFDocument -> PDFDocument) : W unit :=
  modify (fun w => set_doc (f (doc w)) w).

(** *** Calls into PDFKit

    The definitions below say what a call does to the document when
    PDFKit takes the call.  PDFKit does not take every call, and the class
    guards against none of this: with [autoFirstPage] off the document
    starts without a page, and a call that writes to the page ([fillColor],
    [text], [rect]) then fails with a [TypeError]; a number that is not
    one ([NaN], which is what arithmetic makes of a leaf the configuration
    lacks) is refused as an unsupported number; once the document is ended
    its pages are flushed, and [switchToPage] fails.  The caller's contract
    rules these out (the title page comes first, the configuration is
    well formed, [finish] comes last); [live] and [ready], further down,
    say what it gives, and the properties of the methods that reach PDFKit
    are stated for writers within it. *)

Context {R : Renderer}.

(** A page comes into existence: PDFKit appends it, makes it the current
    page and emits [pageAdded], which runs the writer's handler. *)
Definition newPage (w : PdfWriter) : PdfWriter :=
  let d := doc w in
  let page := {| height := pageHeight; margins := doc_margins d |} in
  onPageAdded
    (set_doc (set_pages (doc_pages d ++ [page]) (length (doc_pages d)) d) w).

Fixpoint newPages (k : nat) (w : PdfWriter) : PdfWriter :=
  match k with
  | 0 => w
  | S k' => newPages k' (newPage w)
  end.

Definition doc_addPage : W unit :=
  modify (fun w =>
    let w1 := newPage w in
    let cursor := pageCursor (doc w1) in
    set_doc (set_cursor (Some (fst cursor)) (snd cursor) (doc w1)) w1).

(** [doc.text]: the call is logged on the current page; the layout oracle
    says where the cursor ends up and how many pages the text opened. *)
Definition drawing (d : PDFDocument) (c : TextCall) : DrawOp :=
  DrawText (doc_page d) (margins <$> doc_pages d !! doc_page d)
    (doc_fillColor d) c.

Definition typed (c : TextCall) (w : PdfWriter) : PdfWriter :=
  let d := doc w in
  let layout := textLayout d c in
  let w1 := set_doc (log_op (drawing d c) d) w in
  let w2 := newPages (snd layout) w1 in
  set_doc (set_cursor (Some (fst (fst layout))) (snd (fst layout)) (doc w2)) w2.

Definition doc_text (c : TextCall) : W unit := modify (typed c).

Definition doc_moveDown (n : num) : W unit :=
  modifyDoc (fun d => set_cursor (doc_x d) (moveDownY d n) d).

Definition doc_moveUp : W unit :=
  modifyDoc (fun d => set_cursor (doc_x d) (moveUpY d) d).

Definition doc_rect (rx : option num) (ry rw rh : num)
    (color : option string) : W unit :=
  modifyDoc (fun d => log_op (DrawRect (doc_page d) rx ry rw rh color) d).

(** [doc.page]; reading a property of it when there is no page is a
    [TypeError]. *)
Definition doc_currentPage : W Page :=
  fun w =>
    match doc_pages (doc w) !! doc_page (doc w) with
    | Some p => (w, Ok p)
    | None => (w, Throw "TypeError: doc.page is undefined")
    end.

Definition doc_switchToPage (i : nat) : W unit :=
  fun w =>
    if (i <? length (doc_pages (doc w)))%nat
    then (set_doc (set_pages (doc_pages (doc w)) i (doc w)) w, Ok tt)
    else (w, Throw "switchToPage: page out of bounds").

(** [doc.page.margins.top = t; doc.page.margins.bottom = b] *)
Definition doc_setPageMargins (t b : option num) : W unit :=
  page <- doc_currentPage ;;
  modifyDoc (set_page
    {| height := height page;
       margins := {| left := left (margins page);
                     right := right (margins page);
                     top := t; bottom := b |} |}).

(** [doc.outline.addItem(str)] and [item.addItem(str)]: the new item's
    reference is returned. *)
Definition outline_addItem (parent : option nat) (str : string) : W nat :=
  fun w =>
    let items := doc_outline (doc w) in
    (set_doc (set_outline
                (items ++ [{| item_parent := parent; item_title := str |}])
                (doc w)) w,
     Ok (length items)).
(** *** The constructor *)

Definition constructor (outputFilePath : option string)
    (extStyle : option ApiStyle) : PdfWriter :=
  let style0 := defaultStyle in
  let baseStyle0 :=
    {| font := Some NORM;
       fontSize := baseSize (style_font style0);
       fillColor := main (style_color style0);
       leftMargin := horizontalMargin (style_format style0);
       lineGap := Some (lit 0) |} in
  let style1 :=
    match extStyle with
    | Some s => s (* external style *)
    | None => style0
    end in
  {| style := style1;
     currentSectionName := "";
     pageNumber := 0;
     pageHeaderNodes := [];
     docOutlines := [];
     styleStack := [];
     headerGap := lit 0.7;
     paraGap := lit 0.5;
     baseStyle := baseStyle0;
     doc :=
       {| doc_x := Some (fst initialCursor);
          doc_y := snd initialCursor;
          doc_font := None; doc_fontSize := None; doc_fillColor := None;
          doc_margins :=
            {| left := horizontalMargin (style_format style1);
               right := horizontalMargin (style_format style1);
               top := verticalMargin (style_format style1);
               bottom := verticalMargin (style_format style1) |};
          doc_pages := []; doc_page := 0; doc_outline := [];
          doc_ops := []; doc_output := outputFilePath;
          doc_ended := false |} |}.

(** *** The style stack *)

Definition currentStyle (w : PdfWriter) : TextStyle :=
  match last (styleStack w) with
  | Some s => s
  | None => baseStyle w
  end.

Definition setStyle (s : TextStyle) : W unit :=
  modifyDoc
    (set_active (fonts !! EFont_index (default NORM (font s)))
       (fontSize s) (fillColor s)).

Definition resetStyle : W unit :=
  modify (set_styleStack []) ;;
  w <- get ;;
  setStyle (baseStyle w).

(** [Object.assign(Object.assign({}, cur), patch)] with the margin then
    recomputed as the sum. *)
Definition mergeStyle (cur : TextStyle) (patch : StylePatch) : TextStyle :=
  {| font := default (font cur) (pFont patch);
     fontSize := default (fontSize cur) (pFontSize patch);
     fillColor := default (fillColor cur) (pFillColor patch);
     leftMargin :=
       Some (nadd (default (lit 0) (leftMargin cur))
                  (default (lit 0) (mjoin (pLeftMargin patch))));
     lineGap := default (lineGap cur) (pLineGap patch) |}.

Definition pushStyle (patch : StylePatch) : W TextStyle :=
  w <- get ;;
  let mergedStyle := mergeStyle (currentStyle w) patch in
  setStyle mergedStyle ;;
  modifyDoc (fun d => set_cursor (leftMargin mergedStyle) (doc_y d) d) ;;
  modify (fun w => set_styleStack (styleStack w ++ [mergedStyle]) w) ;;
  ret mergedStyle.

Definition popStyle : W TextStyle :=
  modify (fun w => set_styleStack (removelast (styleStack w)) w) ;;
  w <- get ;;
  let prevStyle := currentStyle w in
  setStyle prevStyle ;;
  modifyDoc (fun d => set_cursor (leftMargin prevStyle) (doc_y d) d) ;;
  ret prevStyle.

Definition withStyle (patch : StylePatch) (fn : TextStyle -> W unit)
    : W unit :=
  newStyle <- pushStyle patch ;;
  fn newStyle ;;
  popStyle ;;
  ret tt.

Definition indentStart : W unit :=
  w <- get ;;
  pushStyle
    {| pFont := None; pFontSize := None; pFillColor := None;
       pLeftMargin := Some (indentStep (style_format (style w)));
       pLineGap := None |} ;;
  ret tt.

Definition indentEnd : W unit :=
  popStyle ;;
  ret tt.

(** *** Text *)

Definition lineBreak (n : num) : W unit := doc_moveDown n.

Definition textImpl (str : string) (options : TextOptions) : W unit :=
  w <- get ;;
  let st := currentStyle w in
  let absolutePos :=
    match opt_x options, opt_y options with
    | None, None => false
    | _, _ => true
    end in
  if absolutePos
  then doc_text
         {| call_str := str;
            call_pos :=
              Some (match opt_x options with
                    | Some ox => Some ox
                    | None => doc_x (doc w)
                    end,
                    default (doc_y (doc w)) (opt_y options));
            call_lineGap := lineGap st;
            call_options := options |}
  else doc_text
         {| call_str := str; call_pos := None;
            call_lineGap := lineGap st; call_options := options |}.

Definition text (str : string) (patch : StylePatch) (options : TextOptions)
    : W unit :=
  if (0 <? patchKeys patch)%nat
  then withStyle patch (fun _ => textImpl str options)
  else textImpl str options.

Definition colorPatch (c : option string) : StylePatch :=
  {| pFont := None; pFontSize := None; pFillColor := Some c;
     pLeftMargin := None; pLineGap := None |}.

Definition continuedOpt (b : bool) : TextOptions :=
  {| opt_x := None; opt_y := None; continued := Some b; destination := None;
     goTo := None; underline := None; indent := None; align := None |}.

Definition alignOpt (a : string) : TextOptions :=
  {| opt_x := None; opt_y := None; continued := None; destination := None;
     goTo := None; underline := None; indent := None; align := Some a |}.

Definition addTitlePage (title : string) (subtitle date : option string)
    : W unit :=
  doc_addPage ;;
  page <- doc_currentPage ;;
  modifyDoc (fun d => set_cursor (doc_x d) (nmul (height page) (lit 0.3)) d) ;;
  text title
    {| pFont := Some (Some BOLD); pFontSize := Some (Some (lit 20));
       pFillColor := None; pLeftMargin := None; pLineGap := None |}
    (alignOpt "center") ;;
  lineBreak (lit 1) ;;
  when (truthy subtitle)
    (text (default "" subtitle)
       {| pFont := Some (Some NORM); pFontSize := Some (Some (lit 14));
          pFillColor := None; pLeftMargin := None; pLineGap := None |}
       (alignOpt "center") ;;
     lineBreak (lit 0.5)) ;;
  when (truthy date)
    (w <- get ;;
     text (default "" date)
       {| pFont := Some (Some NORM); pFontSize := Some (Some (lit 12));
          pFillColor := Some (secondary (style_color (style w)));
          pLeftMargin := None; pLineGap := None |}
       (alignOpt "center")).

Definition newSection (name : string) : W unit :=
  modify (set_currentSectionName name) ;;
  resetStyle ;;
  doc_addPage.

(** *** The outline *)

Definition nestingMessage (level : Z) (outlinesLen : nat) : string :=
  "A header can only be nested inside headers with level - 1. level=" ++
  show_Z level ++ ", previousLevel=" ++ show_Z (Z.of_nat outlinesLen - 1).

Definition addOutline (level : Z) (str : string) : W unit :=
  w0 <- get ;;
  let outlinesLen := length (docOutlines w0) in
  (* [created] is [newOutline]; it is [None] when [levelError] is set *)
  created <-
    (if (level =? 0)%Z
     then n <- outline_addItem None str ;; ret (Some n)
     else if (0 <? level)%Z && (level <=? Z.of_nat outlinesLen)%Z
     then match docOutlines w0 !! Z.to_nat (level - 1) with
          | Some parent =>
              n <- outline_addItem (Some parent) str ;; ret (Some n)
          | None => throw "TypeError: docOutlines[level - 1] is undefined"
          end
     else ret None) ;;
  levelError <-
    match created with
    | Some newOutline =>
        if (level =? Z.of_nat outlinesLen)%Z
        then modify (fun w =>
               set_docOutlines (docOutlines w ++ [newOutline]) w) ;;
             ret false
        else if (level <? Z.of_nat outlinesLen)%Z
        then modify (fun w =>
               set_docOutlines
                 (take (Z.to_nat level + 1) (* remove remainings *)
                    (<[Z.to_nat level := newOutline]> (docOutlines w))) w) ;;
             ret false
        else if (Z.of_nat outlinesLen <? level)%Z
        then ret true
        else ret false
    | None => ret true
    end ;;
  if levelError : bool
  then throw (nestingMessage level outlinesLen)
  else ret tt.

Definition header (level : Z) (str : string) (anchor : option string)
    : W unit :=
  w <- get ;;
  withStyle
    {| pFont := Some (Some BOLD);
       pFontSize :=
         Some (Some (nsub (nadd (to_num (baseSize (style_font (style w))))
                                (lit 4))
                          (nmul (lit (inject_Z level)) (lit 2))));
       pFillColor := Some (headers (style_color (style w)));
       pLeftMargin := None; pLineGap := None |}
    (fun _ =>
       text str emptyPatch
         {| opt_x := None; opt_y := None; continued := None;
            destination := anchor; goTo := None; underline := None;
            indent := None; align := None |} ;;
       w <- get ;;
       lineBreak (headerGap w)) ;;
  addOutline level str.

(** [colorByMethod[method.toLowerCase()]] *)
Definition colorByMethod (c : ColorStyle) (key : string) : option string :=
  if String.eqb key "get" then getMethod c
  else if String.eqb key "put" then putMethod c
  else if String.eqb key "post" then postMethod c
  else if String.eqb key "patch" then patchMethod c
  else if String.eqb key "delete" then deleteMethod c
  else None.

Definition apiHeader (method endpoint : string) (headerLevel : Z) : W unit :=
  w <- get ;;
  let fontSize' := nadd (to_num (baseSize (style_font (style w)))) (lit 2) in
  let colors := style_color (style w) in
  withStyle
    {| pFont := Some (Some BOLD); pFontSize := Some (Some fontSize');
       pFillColor := None; pLeftMargin := None; pLineGap := None |}
    (fun _ =>
       w1 <- get ;;
       let width := widthOfString (doc w1) method in
       let height' := heightOfString (doc w1) method in
       let color :=
         match colorByMethod colors (toLowerCase method) with
         | Some c => Some c
         | None => otherMethods (style_color (style w1))
         end in
       text method emptyPatch (continuedOpt true) ;;
       text " " emptyPatch noOptions ;;
       doc_moveUp ;;
       w2 <- get ;;
       doc_rect (doc_x (doc w2))
         (nsub (doc_y (doc w2)) (ndiv fontSize' (lit 4))) width height' color ;;
       text method (colorPatch (Some "white")) (continuedOpt true) ;;
       w3 <- get ;;
       text ("  " ++ endpoint) (colorPatch (headers (style_color (style w3))))
         noOptions ;;
       w4 <- get ;;
       lineBreak (headerGap w4)) ;;
  addOutline headerLevel (method ++ " " ++ endpoint).

(** *** Blocks *)

Definition subHeader (str : string) : W unit :=
  w <- get ;;
  withStyle
    {| pFont := Some (Some BOLD);
       pFontSize := Some (baseSize (style_font (style w)));
       pFillColor := Some (subHeaders (style_color (style w)));
       pLeftMargin := None; pLineGap := None |}
    (fun _ =>
       text str emptyPatch noOptions ;;
       w <- get ;;
       lineBreak (headerGap w)).

Definition para (str : string) : W unit :=
  text str emptyPatch noOptions ;;
  w <- get ;;
  lineBreak (paraGap w).

Definition description (str : string) (options : TextOptions) : W unit :=
  w <- get ;;
  text str (colorPatch (secondary (style_color (style w)))) options ;;
  lineBreak (lit 0.5).

Record FieldType := {
  type_text : option string;
  type_anchor : option string
}.

Record DataField := {
  field_name : string;
  field_required : option bool;
  field_type : option FieldType;
  field_description : option string
}.

Definition fieldNameOf (field : DataField) : string :=
  field_name field ++ (if default true (field_required field) then "" else "?").

(** [field.type?.text ? `${field.type?.text};` : undefined] *)
Definition fieldTypeOf (field : DataField) : option string :=
  let t := field_type field ≫= type_text in
  if truthy t then Some (default "" t ++ ";") else None.

Definition dataField (origX : option num) (field : DataField) : W unit :=
  let fieldName := fieldNameOf field in
  let fieldType := fieldTypeOf field in
  let anchor := field_type field ≫= type_anchor in
  text fieldName emptyPatch (continuedOpt (truthy fieldType)) ;;
  match fieldType with
  | Some ft =>
      if truthy fieldType
      then
        text ": " emptyPatch (continuedOpt true) ;;
        w <- get ;;
        text ft (colorPatch (highlight (style_color (style w))))
          {| opt_x := None; opt_y := None; continued := None;
             destination := None; goTo := anchor;
             underline := Some (truthy anchor);
             indent := None; align := None |}
      else ret tt
  | None => ret tt
  end ;;
  when (truthy (field_description field))
    (doc_moveUp ;;
     w <- get ;;
     let nameAndType :=
       fieldName ++ match fieldType with
                    | Some ft => if truthy fieldType then ": " ++ ft else ""
                    | None => ""
                    end in
     let step := to_num (indentStep (style_format (style w))) in
     text ("  // " ++ default "" (field_description field))
       (colorPatch (secondary (style_color (style w))))
       {| opt_x := Some (nadd (to_num origX) step); opt_y := None;
          continued := None; destination := None; goTo := None;
          underline := None;
          indent := Some (nsub (widthOfString (doc w) nameAndType) step);
          align := None |}) ;;
  modifyDoc (fun d => set_cursor origX (doc_y d) d).

Definition dataFields (fields : list DataField) : W unit :=
  w <- get ;;
  let origX := doc_x (doc w) in
  forEach fields (fun field _ => dataField origX field).

Definition schemaType (typeName : string) (contentType : option string)
    : W unit :=
  when (truthy contentType)
    (text "Content: " emptyPatch (continuedOpt true) ;;
     w <- get ;;
     text (default "" contentType)
       (colorPatch (highlight (style_color (style w)))) (continuedOpt true) ;;
     text " | " emptyPatch (continuedOpt true)) ;;
  text "Type: " emptyPatch (continuedOpt true) ;;
  w <- get ;;
  text typeName (colorPatch (highlight (style_color (style w)))) noOptions ;;
  lineBreak (paraGap w).

Definition objectSchema (fields : list DataField) : W unit :=
  text "{" emptyPatch noOptions ;;
  indentStart ;;
  dataFields fields ;;
  indentEnd ;;
  text "}" emptyPatch noOptions.

Definition example (name body : string) : W unit :=
  text ("Example " ++ dquote ++ name ++ dquote ++ ":")
    {| pFont := Some (Some BOLD); pFontSize := None; pFillColor := None;
       pLeftMargin := None; pLineGap := None |} noOptions ;;
  w <- get ;;
  lineBreak (paraGap w) ;;
  text body
    {| pFont := Some (Some MONOSPACED);
       pFontSize :=
         Some (Some (nsub (to_num (baseSize (style_font (style w)))) (lit 2)));
       pFillColor := Some (secondary (style_color (style w)));
       pLeftMargin := None; pLineGap := None |} noOptions.

Definition enumValue (arrayLength : nat) (nextLineIndent indent' : num)
    (value : string) (index : nat) : W unit :=
  let notLast := (Z.of_nat index <? Z.of_nat arrayLength - 1)%Z in
  let str := if notLast then value ++ ", " else value in
  let continued' := if notLast then true else false in
  if (index =? 0)%nat
  then text str emptyPatch
         {| opt_x := Some nextLineIndent; opt_y := None;
            continued := Some continued'; destination := None; goTo := None;
            underline := None; indent := Some indent'; align := None |}
  else text str emptyPatch (continuedOpt continued').

Definition enumValues (values : list string) : W unit :=
  text "Values: " emptyPatch noOptions ;;
  doc_moveUp ;;
  w <- get ;;
  let step := to_num (indentStep (style_format (style w))) in
  let nextLineIndent := nadd (to_num (doc_x (doc w))) step in
  let indent' := nsub (widthOfString (doc w) "Values: ") step in
  withStyle (colorPatch (highlight (style_color (style w))))
    (fun _ =>
       forEach values (enumValue (length values) nextLineIndent indent')).

(** *** The finishing pass *)

Definition pageLabel (i count : nat) : string :=
  "Page " ++ show_nat i ++ " / " ++ show_Z (Z.of_nat count - 1).

(** [{ y: cy, align: 'right' }] *)
Definition rightAt (cy : num) : TextOptions :=
  {| opt_x := None; opt_y := Some cy; continued := None; destination := None;
     goTo := None; underline := None; indent := None; align := Some "right" |}.

(** The block [finish] runs in the footer style on page [i]. *)
Definition stampBlock (count i : nat) (origTop origBottom : option num)
    : W unit :=
  w <- get ;;
  when (truthy (pageHeaderNodes w !! i))
    (text (default "" (pageHeaderNodes w !! i)) emptyPatch
       (rightAt (ndiv (to_num origTop) (lit 2)))) ;;
  page' <- doc_currentPage ;;
  text (pageLabel i count) emptyPatch
    (rightAt (nsub (height page') (ndiv (to_num origBottom) (lit 2)))).

(** The body of the loop of [finish]. *)
Definition stampPage (count i : nat) : W unit :=
  doc_switchToPage i ;;
  page <- doc_currentPage ;;
  let origTop := top (margins page) in
  let origBottom := bottom (margins page) in
  doc_setPageMargins (Some (lit 0)) (Some (lit 0)) ;;
  when (0 <? i)%nat
    (w <- get ;;
     withStyle
       {| pFont := Some (Some NORM); pFontSize := Some (Some (lit 9));
          pFillColor := Some (secondary (style_color (style w)));
          pLeftMargin := None; pLineGap := None |}
       (fun _ => stampBlock count i origTop origBottom)) ;;
  doc_setPageMargins origTop origBottom.

Definition finish : W unit :=
  w <- get ;;
  let count := length (doc_pages (doc w)) in
  forRange 0 count (stampPage count) ;;
  modifyDoc set_ended.

(** *** Sequences of calls *)

Inductive Call :=
| AddTitlePage (title : string) (subtitle date : option string)
| NewSection (name : string)
| IndentStart
| IndentEnd
| LineBreak (n : num)
| Text (str : string) (patch : StylePatch) (options : TextOptions)
| Header (level : Z) (str : string) (anchor : option string)
| ApiHeader (method endpoint : string) (headerLevel : Z)
| SubHeader (str : string)
| Para (str : string)
| Description (str : string) (options : TextOptions)
| DataFields (fields : list DataField)
| SchemaType (typeName : string) (contentType : option string)
| ObjectSchema (fields : list DataField)
| Example (name body : string)
| EnumValues (values : list string)
| Finish.

Definition perform (c : Call) : W unit :=
  match c with
  | AddTitlePage title subtitle date => addTitlePage title subtitle date
  | NewSection name => newSection name
  | IndentStart => indentStart
  | IndentEnd => indentEnd
  | LineBreak n => lineBreak n
  | Text str patch options => text str patch options
  | Header level str anchor => header level str anchor
  | ApiHeader method endpoint headerLevel => apiHeader method endpoint headerLevel
  | SubHeader str => subHeader str
  | Para str => para str
  | Description str options => description str options
  | DataFields fields => dataFields fields
  | SchemaType typeName contentType => schemaType typeName contentType
  | ObjectSchema fields => objectSchema fields
  | Example name body => example name body
  | EnumValues values => enumValues values
  | Finish => finish
  end.

(** The writer after a sequence of calls; the caller may catch what a call
    throws and go on, so every call of the sequence is made. *)
Definition performAll (calls : list Call) (w : PdfWriter) : PdfWriter :=
  foldl (fun w c => state (perform c w)) w calls.

(** The level of a heading call. *)
Definition heading (c : Call) : option Z :=
  match c with
  | Header level _ _ => Some level
  | ApiHeader _ _ headerLevel => Some headerLevel
  | _ => None
  end.

Fixpoint levels (calls : list Call) : list Z :=
  match calls with
  | [] => []
  | c :: rest =>
      match heading c with
      | Some level => level :: levels rest
      | None => levels rest
      end
  end.

(** The greatest level among the calls. *)
Definition maxLevel (calls : list Call) : Z := foldr Z.max 0%Z (levels calls).

(** Every call is a heading whose level is non-negative and at most the
    length of the path when the call is made. *)
Fixpoint levelsFit (calls : list Call) (w : PdfWriter) : bool :=
  match calls with
  | [] => true
  | c :: rest =>
      match heading c with
      | Some level =>
          (0 <=? level)%Z && (level <=? Z.of_nat (length (docOutlines w)))%Z
          && levelsFit rest (state (perform c w))
      | None => false
      end
  end.

(** Every call of the sequence returns normally. *)
Fixpoint allReturn (calls : list Call) (w : PdfWriter) : Prop :=
  match calls with
  | [] => True
  | c :: rest =>
      outcome (perform c w) = Ok tt /\ allReturn rest (state (perform c w))
  end.

End Model.

(** ** A concrete arithmetic and a concrete renderer

    Exact rational arithmetic with a [NaN], and a renderer with fixed-size
    glyphs that puts absolute text where it is asked to and never breaks a
    page.  The properties below are proved for every arithmetic and every
    renderer; these two serve to run the writer on concrete inputs. *)

Inductive qnum :=
| Num (q : Q)
| NaN.

Definition qlift (f : Q -> Q -> Q) (a b : qnum) : qnum :=
  match a, b with
  | Num x, Num y => Num (Qred (f x y))
  | _, _ => NaN
  end.

#[export] Instance qnumber : JsNumber qnum :=
  {| lit := Num; nan := NaN;
     nadd := qlift Qplus; nsub := qlift Qminus;
     nmul := qlift Qmult; ndiv := qlift Qdiv |}.

Definition glyphWidth (s : string) : qnum :=
  Num (inject_Z (6 * Z.of_nat (String.length s))).

Definition plainRenderer : @Renderer qnum :=
  {| initialCursor := (Num 0, Num 0);
     pageHeight := Num 792;
     pageCursor := fun d =>
       (to_num (left (doc_margins d)), to_num (top (doc_margins d)));
     textLayout := fun d c =>
       match call_pos c with
       | Some (cx, cy) => (to_num cx, cy, 0)
       | None => (to_num (doc_x d), nadd (doc_y d) (Num 12), 0)
       end;
     widthOfString := fun _ s => glyphWidth s;
     heightOfString := fun _ _ => Num 12;
     moveDownY := fun d n => nadd (doc_y d) (nmul n (Num 12));
     moveUpY := fun d => nsub (doc_y d) (Num 12) |}.

(** A renderer that breaks a page at every flowing text call. *)
Definition breakingRenderer : @Renderer qnum :=
  {| initialCursor := (Num 0, Num 0);
     pageHeight := Num 792;
     pageCursor := fun d =>
       (to_num (left (doc_margins d)), to_num (top (doc_margins d)));
     textLayout := fun d c =>
       match call_pos c with
       | Some (cx, cy) => (to_num cx, cy, 0)
       | None => (to_num (left (doc_margins d)),
                  to_num (top (doc_margins d)), 1)
       end;
     widthOfString := fun _ s => glyphWidth s;
     heightOfString := fun _ _ => Num 12;
     moveDownY := fun d n => nadd (doc_y d) (nmul n (Num 12));
     moveUpY := fun d => nsub (doc_y d) (Num 12) |}.

(** A configuration file that sets the page margins and nothing else of
    the format group: it has no [indentStep]. *)
Definition marginsOnlyStyle : @ApiStyle qnum :=
  {| style_color := style_color defaultStyle;
     style_font := style_font defaultStyle;
     style_format :=
       {| indentStep := None; horizontalMargin := Some (Num 50);
          verticalMargin := Some (Num 40) |} |}.

(** A block that fails. *)
Definition failingBlock : @TextStyle qnum -> M (@PdfWriter qnum) unit :=
  fun _ => throw "Error: block failed".

Definition boldPatch : @StylePatch qnum :=
  {| pFont := Some (Some BOLD); pFontSize := None; pFillColor := None;
     pLeftMargin := None; pLineGap := None |}.

Definition atX (cx : qnum) : @TextOptions qnum :=
  {| opt_x := Some cx; opt_y := None; continued := None; destination := None;
     goTo := None; underline := None; indent := None; align := None |}.

(** A freshly constructed writer with the default style. *)
Definition freshWriter : @PdfWriter qnum :=
  constructor (R := plainRenderer) (Some "output.pdf") None.

(** A chapter, a section in it, and the next chapter. *)
Definition threeHeadings : list (@Call qnum) :=
  [Header 0 "Users" None; Header 1 "List users" None; Header 0 "Orders" None].

(** A title page and two sections of one page each. *)
Definition threePages : @PdfWriter qnum :=
  performAll (R := plainRenderer)
    [AddTitlePage "API Spec" (Some "v1") None;
     NewSection "Users"; Para "All about users.";
     NewSection "Orders"; Para "All about orders."]
    freshWriter.

Definition indentBy (d : qnum) : @StylePatch qnum :=
  {| pFont := None; pFontSize := None; pFillColor := None;
     pLeftMargin := Some (Some d); pLineGap := None |}.

Definition qle (a b : qnum) : bool :=
  match a, b with
  | Num x, Num y => Qle_bool x y
  | _, _ => false
  end.

(** A renderer with PDFKit's rule for page breaks: a line that would end
    below the bottom margin of the current page goes to a new page. *)
Definition flowRenderer : @Renderer qnum :=
  {| initialCursor := (Num 0, Num 0);
     pageHeight := Num 792;
     pageCursor := fun d =>
       (to_num (left (doc_margins d)), to_num (top (doc_margins d)));
     textLayout := fun d c =>
       let cx := match call_pos c with
                 | Some (x, _) => to_num x
                 | None => to_num (doc_x d)
                 end in
       let cy := match call_pos c with
                 | Some (_, y) => y
                 | None => doc_y d
                 end in
       let maxY := match doc_pages d !! doc_page d with
                   | Some page =>
                       nsub (height page) (to_num (bottom (margins page)))
                   | None => NaN
                   end in
       if qle (nadd cy (Num 12)) maxY
       then (cx, nadd cy (Num 12), 0)
       else (to_num (left (doc_margins d)),
             nadd (to_num (top (doc_margins d))) (Num 12), 1);
     widthOfString := fun _ s => glyphWidth s;
     heightOfString := fun _ _ => Num 12;
     moveDownY := fun d n => nadd (doc_y d) (nmul n (Num 12));
     moveUpY := fun d => nsub (doc_y d) (Num 12) |}.

(** The default configuration with a vertical margin of 10. *)
Definition tightStyle : @ApiStyle qnum :=
  {| style_color := style_color defaultStyle;
     style_font := style_font defaultStyle;
     style_format :=
       {| indentStep := Some (Num 12); horizontalMargin := Some (Num 70);
          verticalMargin := Some (Num 10) |} |}.

(** The calls that make a title page and two sections of one page each. *)
Definition threePageCalls : list (@Call qnum) :=
  [AddTitlePage "API Spec" (Some "v1") None;
   NewSection "Users"; Para "All about users.";
   NewSection "Orders"; Para "All about orders."].

(** The same document with the tight configuration, laid out with
    PDFKit's rule for page breaks. *)
Definition tightPages : @PdfWriter qnum :=
  performAll (R := flowRenderer) threePageCalls
    (constructor (R := flowRenderer) (Some "output.pdf") (Some tightStyle)).


(** A writer with its title page: the document has a page. *)
Definition titledWriter : @PdfWriter qnum :=
  state (addTitlePage (R := plainRenderer) "API Spec" (Some "v1") None
           freshWriter).

(** A writer in its first section, after the title page. *)
Definition usersWriter : @PdfWriter qnum :=
  state (newSection (R := plainRenderer) "Users" titledWriter).

(** A writer in a section: the document is set to the base style. *)
Definition sectionWriter : @PdfWriter qnum :=
  state (newSection (R := plainRenderer) "Users" freshWriter).

(** A required field with a description, and an optional one whose type
    links to a schema. *)
Definition userFields : list DataField :=
  [{| field_name := "id"; field_required := Some true;
      field_type := Some {| type_text := Some "integer"; type_anchor := None |};
      field_description := Some "The id" |};
   {| field_name := "pet"; field_required := Some false;
      field_type := Some {| type_text := Some "Pet"; type_anchor := Some "Pet" |};
      field_description := None |}].

(** ** The style stack of the older revision

    [src/pdf-writer.ts] keeps the same stack on a style whose margin field
    is [indent]; pushing and popping set the font, size and colour of the
    document and nothing else. *)

Module Legacy.

Inductive FontFace := NORM | BOLD | ITALIC | BOLD_ITALIC.

Definition FontFace_index (f : FontFace) : nat :=
  match f with
  | NORM => 0 | BOLD => 1 | ITALIC => 2 | BOLD_ITALIC => 3
  end.

Definition fonts : list string :=
  ["Helvetica"; "Helvetica-Bold"; "Helvetica-Oblique"; "Helvetica-BoldOblique"].

Section LegacyModel.
Context {num : Type} `{JsNumber num}.

Record TextStyle := {
  font : option FontFace;
  fontSize : option num;
  fillColor : option string;
  indent : option num;
  lineGap : option num
}.

Record StylePatch := {
  pFont : option (option FontFace);
  pFontSize : option (option num);
  pFillColor : option (option string);
  pIndent : option (option num);
  pLineGap : option (option num)
}.

Record PdfWriter := {
  topRightText : string;
  docOutlines : list nat;
  styleStack : list TextStyle;
  baseStyle : TextStyle;
  doc : @PDFDocument num
}.

#[local] Abbreviation W := (M PdfWriter).

Definition set_doc (d : @PDFDocument num) (w : PdfWriter) : PdfWriter :=
  {| topRightText := topRightText w; docOutlines := docOutlines w;
     styleStack := styleStack w; baseStyle := baseStyle w; doc := d |}.

Definition set_styleStack (s : list TextStyle) (w : PdfWriter) : PdfWriter :=
  {| topRightText := topRightText w; docOutlines := docOutlines w;
     styleStack := s; baseStyle := baseStyle w; doc := doc w |}.

Definition currentStyle (w : PdfWriter) : TextStyle :=
  match last (styleStack w) with
  | Some s => s
  | None => baseStyle w
  end.

Definition setStyle (s : TextStyle) : W unit :=
  modify (fun w =>
    set_doc (set_active (fonts !! FontFace_index (default NORM (font s)))
               (fontSize s) (fillColor s) (doc w)) w).

Definition resetStyle : W unit :=
  modify (set_styleStack []) ;;
  w <- get ;;
  setStyle (baseStyle w).

(** [{ ...this.currentStyle(), ...style }] with the indent then
    recomputed as the sum. *)
Definition mergeStyle (cur : TextStyle) (patch : StylePatch) : TextStyle :=
  {| font := default (font cur) (pFont patch);
     fontSize := default (fontSize cur) (pFontSize patch);
     fillColor := default (fillColor cur) (pFillColor patch);
     indent :=
       Some (nadd (default (lit 0) (indent cur))
                  (default (lit 0) (mjoin (pIndent patch))));
     lineGap := default (lineGap cur) (pLineGap patch) |}.

Definition pushStyle (patch : StylePatch) : W TextStyle :=
  w <- get ;;
  let mergedStyle := mergeStyle (currentStyle w) patch in
  setStyle mergedStyle ;;
  modify (fun w => set_styleStack (styleStack w ++ [mergedStyle]) w) ;;
  ret mergedStyle.

Definition popStyle : W TextStyle :=
  modify (fun w => set_styleStack (removelast (styleStack w)) w) ;;
  w <- get ;;
  let prevStyle := currentStyle w in
  setStyle prevStyle ;;
  ret prevStyle.

Definition withStyle (patch : StylePatch) (fn : TextStyle -> W unit)
    : W unit :=
  newStyle <- pushStyle patch ;;
  fn newStyle ;;
  popStyle ;;
  ret tt.

Definition indentStart : W unit :=
  pushStyle
    {| pFont := None; pFontSize := None; pFillColor := None;
       pIndent := Some (Some (lit 12)); pLineGap := None |} ;;
  ret tt.

Definition indentEnd : W unit :=
  popStyle ;;
  ret tt.

End LegacyModel.
End Legacy.

(** A writer of the older revision with the base style its constructor
    sets, on an empty document. *)
Definition legacyWriter : @Legacy.PdfWriter qnum :=
  {| Legacy.topRightText := ""; Legacy.docOutlines := [];
     Legacy.styleStack := [];
     Legacy.baseStyle :=
       {| Legacy.font := Some Legacy.NORM; Legacy.fontSize := Some (Num 12);
          Legacy.fillColor := Some "black"; Legacy.indent := Some (Num 0);
          Legacy.lineGap := Some (Num 0) |};
     Legacy.doc := doc freshWriter |}.

Definition legacyBold : @Legacy.StylePatch qnum :=
  {| Legacy.pFont := Some (Some Legacy.BOLD); Legacy.pFontSize := None;
     Legacy.pFillColor := None; Legacy.pIndent := None;
     Legacy.pLineGap := None |}.

(** ** Notions used in the statements *)

Section Notions.
Context {num : Type} `{JsNumber num}.

#[local] Abbreviation Writer := (@PdfWriter num).

(** The page registry invariant. *)
Definition registry (w : Writer) : Prop :=
  length (pageHeaderNodes w) = length (doc_pages (doc w)) /\
  pageNumber w = length (doc_pages (doc w)).

(** The registry has grown by [extra]: one entry, one page and one count
    for each page created. *)
Definition grows (w w' : Writer) : Prop :=
  exists extra,
    pageHeaderNodes w' = (pageHeaderNodes w ++ extra)%list /\
    length (doc_pages (doc w')) = length (doc_pages (doc w)) + length extra /\
    pageNumber w' = pageNumber w + length extra.

(** What drawing text leaves alone: the configuration, the section name,
    the outline path and tree, and the style stack with its base. *)
Definition core (w : Writer) :=
  (style w, currentSectionName w, docOutlines w, styleStack w, baseStyle w,
   headerGap w, paraGap w, doc_outline (doc w)).

Definition sameCore (w w' : Writer) : Prop := core w' = core w.

(** The outline path is linked in the tree [items]: the item at level 0
    was added to the root, the item at a deeper level was added to the item
    that the path holds one level up. *)
Definition linkedPath (items : list OutlineItem) (path : list nat) : Prop :=
  forall k id,
    path !! k = Some id ->
    exists item,
      items !! id = Some item /\
      item_parent item = match k with
                         | 0 => None
                         | S j => path !! j
                         end.

Definition linked (w : Writer) : Prop :=
  linkedPath (doc_outline (doc w)) (docOutlines w).

(** What a heading at [level] does to the path, in the words of the
    specification: at the current length the new item is appended, below it
    the entry at [level] is replaced and the deeper entries are dropped. *)
Definition pathStep (level : Z) (path : list nat) (newItem : nat) : list nat :=
  if (level =? Z.of_nat (length path))%Z
  then (path ++ [newItem])%list
  else take (Z.to_nat level + 1) (<[Z.to_nat level := newItem]> path).

(** The path after headings at [levels], the next item created being
    number [next]. *)
Fixpoint pathAfter (levels : list Z) (path : list nat) (next : nat)
    : list nat :=
  match levels with
  | [] => path
  | level :: rest => pathAfter rest (pathStep level path next) (S next)
  end.

(** The [doc.text] call that [textImpl] makes. *)
Definition textCall (str : string) (options : @TextOptions num) (w : Writer)
    : @TextCall num :=
  match opt_x options, opt_y options with
  | None, None =>
      {| call_str := str; call_pos := None;
         call_lineGap := lineGap (currentStyle w); call_options := options |}
  | _, _ =>
      {| call_str := str;
         call_pos :=
           Some (match opt_x options with
                 | Some ox => Some ox
                 | None => doc_x (doc w)
                 end,
                 default (doc_y (doc w)) (opt_y options));
         call_lineGap := lineGap (currentStyle w); call_options := options |}
  end.

(** What a text run shows of a drawing call: the string, the [continued]
    flag and the [x] option. *)
Definition runOf (op : @DrawOp num)
    : option (string * option bool * option num) :=
  match op with
  | DrawText _ _ _ c =>
      Some (call_str c, continued (call_options c), opt_x (call_options c))
  | DrawRect _ _ _ _ _ _ => None
  end.


(** What a stamp shows of a drawing call: the page it is drawn on, the
    string, the [y] it is placed at, its alignment, and the top and bottom
    margins the page has while it is drawn. *)
Definition stampOf (op : @DrawOp num)
    : option (nat * string * option num * option string *
              option (option num * option num)) :=
  match op with
  | DrawText page pageMargins _ c =>
      Some (page, call_str c, opt_y (call_options c), align (call_options c),
            (fun m => (top m, bottom m)) <$> pageMargins)
  | DrawRect _ _ _ _ _ _ => None
  end.

(** Top and bottom margins set to zero. *)
Definition zeroed : option (option num * option num) :=
  Some (Some (lit 0), Some (lit 0)).





(** The effective style as the specification describes it: the documented
    defaults overlaid with the fields the external configuration has. *)
Definition overlayLeaf {A : Type} (dflt ext : option A) : option A :=
  match ext with
  | Some v => Some v
  | None => dflt
  end.

Definition overlay (dflt ext : @ApiStyle num) : @ApiStyle num :=
  {| style_color :=
       {| main := overlayLeaf (main (style_color dflt)) (main (style_color ext));
          secondary := overlayLeaf (secondary (style_color dflt))
                         (secondary (style_color ext));
          highlight := overlayLeaf (highlight (style_color dflt))
                         (highlight (style_color ext));
          headers := overlayLeaf (headers (style_color dflt))
                       (headers (style_color ext));
          subHeaders := overlayLeaf (subHeaders (style_color dflt))
                          (subHeaders (style_color ext));
          getMethod := overlayLeaf (getMethod (style_color dflt))
                         (getMethod (style_color ext));
          putMethod := overlayLeaf (putMethod (style_color dflt))
                         (putMethod (style_color ext));
          postMethod := overlayLeaf (postMethod (style_color dflt))
                          (postMethod (style_color ext));
          patchMethod := overlayLeaf (patchMethod (style_color dflt))
                           (patchMethod (style_color ext));
          deleteMethod := overlayLeaf (deleteMethod (style_color dflt))
                            (deleteMethod (style_color ext));
          otherMethods := overlayLeaf (otherMethods (style_color dflt))
                            (otherMethods (style_color ext)) |};
     style_font :=
       {| baseSize := overlayLeaf (baseSize (style_font dflt))
                        (baseSize (style_font ext)) |};
     style_format :=
       {| indentStep := overlayLeaf (indentStep (style_format dflt))
                          (indentStep (style_format ext));
          horizontalMargin := overlayLeaf (horizontalMargin (style_format dflt))
                                (horizontalMargin (style_format ext));
          verticalMargin := overlayLeaf (verticalMargin (style_format dflt))
                              (verticalMargin (style_format ext)) |} |}.

End Notions.

(** ** Notions for the further properties *)

Section MoreNotions.
Context {num : Type} `{JsNumber num}.

#[local] Abbreviation Writer := (@PdfWriter num).

(** The outline is as it was: the path and the items. *)
Definition outlineKept (w w' : Writer) : Prop :=
  docOutlines w' = docOutlines w /\ doc_outline (doc w') = doc_outline (doc w).

(** The pages opened between [w] and [w'] are all recorded under the
    section name of [w], which is still the name in [w']. *)
Definition spills (w w' : Writer) : Prop :=
  currentSectionName w' = currentSectionName w /\
  exists k,
    pageHeaderNodes w' =
      (pageHeaderNodes w ++ replicate k (currentSectionName w))%list.

(** The configuration is as it was. *)
Definition sameConfig (w w' : Writer) : Prop :=
  style w' = style w /\ baseStyle w' = baseStyle w /\
  headerGap w' = headerGap w /\ paraGap w' = paraGap w.

(** The base style the constructor builds. *)
Definition defaultBaseStyle : @TextStyle num :=
  {| font := Some NORM; fontSize := Some (lit 10);
     fillColor := Some "#333333"; leftMargin := Some (lit 70);
     lineGap := Some (lit 0) |}.

(** What a drawing call shows, whatever the page it lands on: for text,
    the fill colour the document tracks when the call is made (the one
    last set with [fillColor]), the string, the line gap, and the options
    but for [indent], which comes from measuring text; for a rectangle,
    its colour. *)
Inductive Shown :=
| ShownText (fill : option string) (str : string) (gap : option num)
    (options : @TextOptions num)
| ShownRect (color : option string).

Definition eraseIndent (o : @TextOptions num) : @TextOptions num :=
  {| opt_x := opt_x o; opt_y := opt_y o; continued := continued o;
     destination := destination o; goTo := goTo o; underline := underline o;
     indent := None; align := align o |}.

Definition shownOf (op : @DrawOp num) : Shown :=
  match op with
  | DrawText _ _ fill c =>
      ShownText fill (call_str c) (call_lineGap c)
        (eraseIndent (call_options c))
  | DrawRect _ _ _ _ _ color => ShownRect color
  end.

(** [emits w0 f m shown w1 f1]: run in any state that has the core of [w0]
    and the fill colour [f], the method [m] returns, in a state that has
    the core of [w1] and the fill colour [f1], after drawing calls that
    show as [shown]. *)
Definition emits {A : Type} (w0 : Writer) (f : option string)
    (m : M Writer A) (shown : list Shown) (w1 : Writer) (f1 : option string)
    : Prop :=
  forall w, sameCore w0 w -> doc_fillColor (doc w) = f ->
  exists a w',
    m w = (w', Ok a) /\ sameCore w1 w' /\ doc_fillColor (doc w') = f1 /\
    exists ops,
      doc_ops (doc w') = (doc_ops (doc w) ++ ops)%list /\
      map shownOf ops = shown.


(** The current page exists. *)
Definition onPage (w : Writer) : Prop :=
  doc_page (doc w) < length (doc_pages (doc w)).

(** No page is lost, and the current page exists if it did. *)
Definition staysOnPage (w w' : Writer) : Prop :=
  length (doc_pages (doc w)) <= length (doc_pages (doc w')) /\
  (onPage w -> onPage w').

(** The style stack is as it was, and so is what was drawn. *)
Definition inkKept (w w' : Writer) : Prop :=
  styleStack w' = styleStack w /\ doc_ops (doc w') = doc_ops (doc w).

(** *** The caller's contract *)

(** A value that is there and is a number.  (Its size is left open: the
    interface of numbers has no order, and PDFKit's refusal of numbers
    from 1e21 up, far beyond any length on a page, is not modelled.) *)
Definition isNumber (v : option num) : Prop :=
  exists n, v = Some n /\ n <> nan.

(** The document has a current page and is not ended: PDFKit takes a
    change of style. *)
Definition live (w : Writer) : Prop :=
  onPage w /\ doc_ended (doc w) = false.

Definition styleReady (s : @TextStyle num) : Prop :=
  isNumber (fontSize s) /\ isNumber (leftMargin s) /\ isNumber (lineGap s).

Definition marginsReady (m : @Margins num) : Prop :=
  isNumber (left m) /\ isNumber (right m) /\
  isNumber (top m) /\ isNumber (bottom m).

Definition pageReady (p : @Page num) : Prop :=
  height p <> nan /\ marginsReady (margins p).

(** [ready w]: the writer is within the caller's contract, so that
    PDFKit takes the text it draws: the document is live; the
    configuration has its base size and its indent step; the gaps, the
    styles of the stack and the base style, the cursor, the font size the
    document is set to, and the margins of the document and of its pages
    are numbers. *)
Definition ready (w : Writer) : Prop :=
  live w /\
  isNumber (baseSize (style_font (style w))) /\
  isNumber (indentStep (style_format (style w))) /\
  headerGap w <> nan /\ paraGap w <> nan /\
  Forall styleReady (baseStyle w :: styleStack w) /\
  isNumber (doc_x (doc w)) /\ doc_y (doc w) <> nan /\
  isNumber (doc_fontSize (doc w)) /\
  marginsReady (doc_margins (doc w)) /\
  Forall pageReady (doc_pages (doc w)).




(** The colour of the banner of a method, as a table: the colour
    configured for the method, looked up by its name in lower case, and
    the colour of the other methods when the table has no entry for it or
    the entry is undefined. *)
Definition methodColors (c : ColorStyle) : list (string * option string) :=
  [("get", getMethod c); ("put", putMethod c); ("post", postMethod c);
   ("patch", patchMethod c); ("delete", deleteMethod c)].

Definition bannerColor (c : ColorStyle) (method : string) : option string :=
  match find (fun entry => String.eqb (toLowerCase method) (fst entry))
          (methodColors c) with
  | Some (_, Some color) => Some color
  | _ => otherMethods c
  end.

(** [colorByMethod] is an object literal in the source, so a key that
    names a property every object inherits finds that property and not a
    colour; of those names, these are the ones in lower case. *)
Definition inheritedKey (key : string) : bool :=
  String.eqb key "constructor" || String.eqb key "__proto__".

(** The call is a [newSection]. *)
Definition opensSection (c : @Call num) : bool :=
  match c with
  | NewSection _ => true
  | _ => false
  end.

(** [draws w r shown]: the run [r], made from [w], issued drawing calls
    that show as [shown], and left the style stack as it was. *)
Definition draws {A : Type} (w : Writer) (r : Writer * result A)
    (shown : list Shown) : Prop :=
  styleStack (state r) = styleStack w /\
  exists ops,
    doc_ops (doc (state r)) = (doc_ops (doc w) ++ ops)%list /\
    map shownOf ops = shown.


End MoreNotions.

(** ** Reasoning about runs *)

Section Runs.
Context {S : Type}.

Lemma wp_ret {A : Type} (a : A) (Q : A -> S -> Prop) w :
  Q a w -> wp (ret a) Q w.
Proof. intros HQ. exists a, w. auto. Qed.

Lemma wp_bind {A B : Type} (m : M S A) (k : A -> M S B) Q w :
  wp m (fun a w' => wp (k a) Q w') w -> wp (bind m k) Q w.
Proof.
  intros (a & w1 & Hm & b & w2 & Hk & HQ).
  exists b, w2. unfold bind. rewrite Hm. auto.
Qed.

Lemma wp_get (Q : S -> S -> Prop) w : Q w w -> wp get Q w.
Proof. intros HQ. exists w, w. auto. Qed.

Lemma wp_modify (f : S -> S) (Q : unit -> S -> Prop) w :
  Q tt (f w) -> wp (modify f) Q w.
Proof. intros HQ. exists tt, (f w). auto. Qed.

Lemma wp_when (b : bool) (m : M S unit) (Q : unit -> S -> Prop) w :
  (if b then wp m Q w else Q tt w) -> wp (when b m) Q w.
Proof. destruct b; simpl; auto using wp_ret. Qed.

Lemma wp_mono {A : Type} (m : M S A) (Q Q' : A -> S -> Prop) w :
  wp m Q w -> (forall a w', Q a w' -> Q' a w') -> wp m Q' w.
Proof. intros (a & w' & Hm & HQ) Himp. exists a, w'. auto. Qed.

Lemma wp_run {A : Type} (m : M S A) Q w :
  wp m Q w -> exists a, outcome (m w) = Ok a /\ Q a (state (m w)).
Proof. intros (a & w' & Hm & HQ). rewrite Hm. exists a. auto. Qed.

Section Keeps.
Context (Rel : S -> S -> Prop) `{!PreOrder Rel}.

Lemma keeps_ret {A : Type} (a : A) : keeps Rel (ret a).
Proof. intros w. reflexivity. Qed.

Lemma keeps_throw {A : Type} e : keeps Rel (@throw S A e).
Proof. intros w. reflexivity. Qed.

Lemma keeps_get : keeps Rel get.
Proof. intros w. reflexivity. Qed.

Lemma keeps_modify (f : S -> S) : (forall w, Rel w (f w)) -> keeps Rel (modify f).
Proof. intros Hf w. apply Hf. Qed.

Lemma keeps_bind {A B : Type} (m : M S A) (k : A -> M S B) :
  keeps Rel m -> (forall a, keeps Rel (k a)) -> keeps Rel (bind m k).
Proof.
  intros Hm Hk w. specialize (Hm w). unfold bind, state in *.
  destruct (m w) as [w1 [a|e]]; simpl in *; auto.
  transitivity w1; auto. apply Hk.
Qed.

Lemma keeps_when (b : bool) (m : M S unit) : keeps Rel m -> keeps Rel (when b m).
Proof. destruct b; simpl; auto using keeps_ret. Qed.

Lemma keeps_forEachFrom {A : Type} (l : list A) (f : A -> nat -> M S unit) i :
  (forall v j, keeps Rel (f v j)) -> keeps Rel (forEachFrom i l f).
Proof.
  intros Hf. revert i.
  induction l as [|v l IH]; intros i; simpl.
  - apply keeps_ret.
  - apply keeps_bind; auto.
Qed.

Lemma keeps_forRange (body : nat -> M S unit) start count :
  (forall i, keeps Rel (body i)) -> keeps Rel (forRange start count body).
Proof.
  intros Hb. revert start.
  induction count as [|c IH]; intros start; simpl.
  - apply keeps_ret.
  - apply keeps_bind; auto.
Qed.

End Keeps.

Section Steady.
Context (Rel : S -> S -> Prop) `{!PreOrder Rel}.

Lemma steady_ret {A : Type} (a : A) : steady Rel (ret a).
Proof. intros w. apply wp_ret. reflexivity. Qed.

Lemma steady_get : steady Rel get.
Proof. intros w. apply wp_get. reflexivity. Qed.

Lemma steady_modify (f : S -> S) :
  (forall w, Rel w (f w)) -> steady Rel (modify f).
Proof. intros Hf w. apply wp_modify, Hf. Qed.

Lemma steady_bind {A B : Type} (m : M S A) (k : A -> M S B) :
  steady Rel m -> (forall a, steady Rel (k a)) -> steady Rel (bind m k).
Proof.
  intros Hm Hk w. apply wp_bind.
  eapply wp_mono; [apply Hm|]. intros a w1 H1. simpl in H1.
  eapply wp_mono; [apply Hk|]. intros b w2 H2. simpl in H2.
  transitivity w1; auto.
Qed.

Lemma steady_when (b : bool) (m : M S unit) :
  steady Rel m -> steady Rel (when b m).
Proof. destruct b; simpl; auto using steady_ret. Qed.

Lemma steady_forEachFrom {A : Type} (l : list A) (f : A -> nat -> M S unit) i :
  (forall v j, steady Rel (f v j)) -> steady Rel (forEachFrom i l f).
Proof.
  intros Hf. revert i.
  induction l as [|v l IH]; intros i; simpl.
  - apply steady_ret.
  - apply steady_bind; auto.
Qed.

Lemma steady_run {A : Type} (m : M S A) w :
  steady Rel m -> exists a, m w = (state (m w), Ok a) /\ Rel w (state (m w)).
Proof.
  intros Hm. destruct (Hm w) as (a & w' & Hrun & Hrel).
  rewrite Hrun. exists a. auto.
Qed.

End Steady.

(** After a steady [m], go on from any state it may leave. *)
Lemma wp_after {A B : Type} (Rel : S -> S -> Prop) (m : M S A)
    (k : A -> M S B) Q w :
  steady Rel m ->
  (forall a w', Rel w w' -> wp (k a) Q w') ->
  wp (bind m k) Q w.
Proof.
  intros Hm Hk. apply wp_bind. eapply wp_mono; [apply Hm|].
  intros a w' Hrel. apply Hk, Hrel.
Qed.

End Runs.

(** One step of a proof that a method keeps a relation: through the
    structure of the method, down to the field updates. *)
Ltac keeps_step :=
  match goal with
  | |- keeps _ (bind _ _) => apply keeps_bind; [ typeclasses eauto | | intros ? ]
  | |- keeps _ (ret _) => apply keeps_ret; typeclasses eauto
  | |- keeps _ (throw _) => apply keeps_throw; typeclasses eauto
  | |- keeps _ get => apply keeps_get; typeclasses eauto
  | |- keeps _ (when _ _) => apply keeps_when; [ typeclasses eauto | ]
  | |- keeps _ (forEach _ _) =>
      apply keeps_forEachFrom; [ typeclasses eauto | intros ? ? ]
  | |- keeps _ (forRange _ _ _) =>
      apply keeps_forRange; [ typeclasses eauto | intros ? ]
  | |- keeps _ (if ?b then _ else _) => destruct b
  | |- keeps _ (match ?o with Some _ => _ | None => _ end) => destruct o
  end.

Ltac steady_step :=
  match goal with
  | |- steady _ (bind _ _) => apply steady_bind; [ typeclasses eauto | | intros ? ]
  | |- steady _ (ret _) => apply steady_ret; typeclasses eauto
  | |- steady _ get => apply steady_get; typeclasses eauto
  | |- steady _ (when _ _) => apply steady_when; [ typeclasses eauto | ]
  | |- steady _ (forEach _ _) =>
      apply steady_forEachFrom; [ typeclasses eauto | intros ? ? ]
  | |- steady _ (if ?b then _ else _) => destruct b
  | |- steady _ (match ?o with Some _ => _ | None => _ end) => destruct o
  end.

Section Properties.
Context {num : Type} `{JsNumber num} {R : @Renderer num}.

#[local] Abbreviation Writer := (@PdfWriter num).
#[local] Abbreviation W := (M Writer).
#[local] Abbreviation Grows := (@grows num).

(** *** The page registry *)

#[local] Instance grows_preorder : PreOrder (@grows num).
Proof.
  split.
  - intros w. exists []. rewrite app_nil_r. simpl. repeat split; lia.
  - intros w1 w2 w3 (e1 & H1 & H2 & H3) (e2 & H4 & H5 & H6).
    exists (e1 ++ e2)%list.
    rewrite H4, H1, H5, H2, H6, H3, length_app, app_assoc.
    repeat split; lia.
Qed.

Lemma grows_registry (w w' : Writer) : grows w w' -> registry w -> registry w'.
Proof.
  intros (e & H1 & H2 & H3) [H4 H5]. unfold registry.
  rewrite H1, H2, H3, length_app. split; lia.
Qed.

(** A field update that leaves the pages, the entries and the counter
    alone. *)
Lemma grows_same (w w' : Writer) :
  pageHeaderNodes w' = pageHeaderNodes w ->
  length (doc_pages (doc w')) = length (doc_pages (doc w)) ->
  pageNumber w' = pageNumber w ->
  grows w w'.
Proof.
  intros H1 H2 H3. exists []. rewrite app_nil_r. simpl.
  repeat split; auto; lia.
Qed.

Lemma grows_newPage (w : Writer) : grows w (newPage w).
Proof.
  exists [currentSectionName w]. simpl. rewrite length_app. simpl.
  repeat split; lia.
Qed.

Lemma grows_newPages k (w : Writer) : grows w (newPages k w).
Proof.
  revert w. induction k as [|k IH]; intros w; simpl.
  - reflexivity.
  - transitivity (newPage w); auto using grows_newPage.
Qed.

Lemma grows_typed c (w : Writer) : grows w (typed c w).
Proof.
  unfold typed.
  set (w1 := set_doc _ w).
  transitivity w1; [apply grows_same; reflexivity|].
  transitivity (newPages (snd (textLayout (doc w) c)) w1);
    [apply grows_newPages|apply grows_same; reflexivity].
Qed.

Ltac grows_leaf :=
  match goal with
  | |- keeps _ (modify _) =>
      apply keeps_modify; intros ?;
      first [ apply grows_typed
            | apply grows_same; simpl; rewrite ?length_insert; reflexivity ]
  | |- keeps _ (modifyDoc _) =>
      apply keeps_modify; intros ?;
      apply grows_same; simpl; unfold set_page; simpl;
      rewrite ?length_insert; reflexivity
  end.

Lemma grows_doc_text c : keeps Grows (doc_text c).
Proof. unfold doc_text. grows_leaf. Qed.

Lemma grows_doc_addPage : keeps Grows doc_addPage.
Proof.
  apply keeps_modify. intros w.
  transitivity (newPage w); [apply grows_newPage|apply grows_same; reflexivity].
Qed.

Lemma grows_doc_currentPage : keeps Grows doc_currentPage.
Proof.
  intros w. unfold doc_currentPage. destruct (_ !! _); reflexivity.
Qed.

Lemma grows_doc_switchToPage i : keeps Grows (doc_switchToPage i).
Proof.
  intros w. unfold doc_switchToPage. destruct (_ <? _)%nat; simpl.
  - apply grows_same; reflexivity.
  - reflexivity.
Qed.

Lemma grows_doc_setPageMargins t b : keeps Grows (doc_setPageMargins t b).
Proof.
  unfold doc_setPageMargins.
  keeps_step; [apply grows_doc_currentPage|grows_leaf].
Qed.

Lemma grows_outline_addItem parent str : keeps Grows (outline_addItem parent str).
Proof. intros w. apply grows_same; reflexivity. Qed.

Lemma grows_setStyle s : keeps Grows (setStyle s).
Proof. unfold setStyle. grows_leaf. Qed.

Lemma grows_lineBreak n : keeps Grows (lineBreak n).
Proof. unfold lineBreak, doc_moveDown. grows_leaf. Qed.

Lemma grows_doc_moveUp : keeps Grows doc_moveUp.
Proof. unfold doc_moveUp. grows_leaf. Qed.

Lemma grows_doc_rect rx ry rw rh color :
  keeps Grows (doc_rect rx ry rw rh color).
Proof. unfold doc_rect. grows_leaf. Qed.

(** Dispatch on the shape of the method, never by unification. *)
Ltac grows_call :=
  match goal with
  | |- keeps _ (doc_text _) => apply grows_doc_text
  | |- keeps _ doc_addPage => apply grows_doc_addPage
  | |- keeps _ doc_currentPage => apply grows_doc_currentPage
  | |- keeps _ (doc_switchToPage _) => apply grows_doc_switchToPage
  | |- keeps _ (doc_setPageMargins _ _) => apply grows_doc_setPageMargins
  | |- keeps _ (outline_addItem _ _) => apply grows_outline_addItem
  | |- keeps _ (setStyle _) => apply grows_setStyle
  | |- keeps _ (lineBreak _) => apply grows_lineBreak
  | |- keeps _ doc_moveUp => apply grows_doc_moveUp
  | |- keeps _ (doc_rect _ _ _ _ _) => apply grows_doc_rect
  end.

Ltac grows_auto := repeat first [ grows_call | keeps_step | grows_leaf ].

Lemma grows_pushStyle patch : keeps Grows (pushStyle patch).
Proof. unfold pushStyle. grows_auto. Qed.

Lemma grows_popStyle : keeps Grows popStyle.
Proof. unfold popStyle. grows_auto. Qed.

Lemma grows_withStyle patch (fn : TextStyle -> W unit) :
  (forall s, keeps Grows (fn s)) -> keeps Grows (withStyle patch fn).
Proof.
  intros Hfn. unfold withStyle.
  repeat first [ apply grows_pushStyle | apply grows_popStyle | apply Hfn
               | keeps_step ].
Qed.

Lemma grows_textImpl str options : keeps Grows (textImpl str options).
Proof. unfold textImpl. grows_auto. Qed.

Lemma grows_text str patch options : keeps Grows (text str patch options).
Proof.
  unfold text. keeps_step; [apply grows_withStyle; intros _|];
    apply grows_textImpl.
Qed.

Lemma grows_addOutline level str : keeps Grows (addOutline level str).
Proof. unfold addOutline. grows_auto. Qed.

Ltac grows_method :=
  repeat match goal with
  | |- keeps _ (withStyle _ _) => apply grows_withStyle; intros ?
  | |- keeps _ (text _ _ _) => apply grows_text
  | |- keeps _ (pushStyle _) => apply grows_pushStyle
  | |- keeps _ popStyle => apply grows_popStyle
  | |- keeps _ (addOutline _ _) => apply grows_addOutline
  | _ => grows_call
  | _ => keeps_step
  | _ => grows_leaf
  end.

Lemma grows_perform (c : Call) : keeps Grows (perform c).
Proof.
  destruct c; simpl;
    unfold addTitlePage, newSection, resetStyle, header, apiHeader,
      subHeader, para, description, schemaType, objectSchema, indentStart,
      indentEnd, dataFields, dataField, example, enumValues, enumValue,
      finish, stampPage, stampBlock;
    grows_method.
Qed.

Lemma grows_performAll (calls : list Call) (w : Writer) :
  grows w (performAll calls w).
Proof.
  revert w. induction calls as [|c calls IH]; intros w; simpl.
  - reflexivity.
  - transitivity (state (perform c w)); [apply grows_perform|apply IH].
Qed.

Lemma performAll_cons (c : Call) (calls : list Call) (w : Writer) :
  performAll (c :: calls) w = performAll calls (state (perform c w)).
Proof. reflexivity. Qed.

Lemma newPage_entry (w : Writer) :
  pageHeaderNodes (newPage w) = (pageHeaderNodes w ++ [currentSectionName w])%list /\
  pageNumber (newPage w) = S (pageNumber w) /\
  length (doc_pages (doc (newPage w))) = S (length (doc_pages (doc w))).
Proof. simpl. rewrite length_app. simpl. repeat split; lia. Qed.

Lemma registry_constructor out sty : registry (constructor out sty).
Proof. split; reflexivity. Qed.

Lemma addTitlePage_entry title subtitle date (w : Writer) :
  exists extra,
    pageHeaderNodes (state (addTitlePage title subtitle date w)) =
    (pageHeaderNodes w ++ currentSectionName w :: extra)%list.
Proof.
  unfold addTitlePage.
  match goal with
  | |- context [bind doc_addPage ?k] =>
      assert (Hk : keeps Grows (k tt)) by grows_method;
      destruct (Hk (state (doc_addPage w))) as (extra & Hx & _);
      exists extra;
      change (bind doc_addPage k w) with (k tt (state (doc_addPage w)))
  end.
  cbv beta. rewrite Hx. unfold doc_addPage, modify, state, newPage, onPageAdded.
  cbn [fst pageHeaderNodes set_doc]. rewrite <- app_assoc. reflexivity.
Qed.

(** C8: after any sequence of calls on a constructed writer the page
    list [pageHeaderNodes] has one entry for each page created so far and
    [pageNumber] counts them; each page that comes into existence appends
    exactly the section name current at that moment and adds one to the
    counter; and when [addTitlePage] is the first call, the entry of the
    title page is the empty string, whatever is called afterwards. *)
Theorem page_registry_invariant (outputFilePath : option string)
    (extStyle : option ApiStyle) (calls : list Call) :
  let w := performAll calls (constructor outputFilePath extStyle) in
  (length (pageHeaderNodes w) = length (doc_pages (doc w)) /\
   pageNumber w = length (doc_pages (doc w))) /\
  (forall w0 : Writer,
     pageHeaderNodes (newPage w0) =
       (pageHeaderNodes w0 ++ [currentSectionName w0])%list /\
     pageNumber (newPage w0) = S (pageNumber w0) /\
     length (doc_pages (doc (newPage w0))) = S (length (doc_pages (doc w0)))) /\
  (forall title subtitle date,
     pageHeaderNodes
       (performAll (AddTitlePage title subtitle date :: calls)
          (constructor outputFilePath extStyle)) !! 0 = Some "").
Proof.
  cbv zeta. split; [|split].
  - apply (grows_registry (constructor outputFilePath extStyle)).
    + apply grows_performAll.
    + apply registry_constructor.
  - apply newPage_entry.
  - intros title subtitle date.
    destruct (addTitlePage_entry title subtitle date
                (constructor outputFilePath extStyle)) as (e1 & H1).
    destruct (grows_performAll calls
                (state (addTitlePage title subtitle date
                          (constructor outputFilePath extStyle))))
      as (e2 & H2 & _).
    rewrite performAll_cons. cbn [perform].
    rewrite H2, H1. reflexivity.
Qed.

(** *** The style stack *)

Lemma pushStyle_run patch (w : Writer) :
  pushStyle patch w =
  (state (pushStyle patch w), Ok (mergeStyle (currentStyle w) patch)).
Proof. reflexivity. Qed.

Lemma pushStyle_stack patch (w : Writer) :
  styleStack (state (pushStyle patch w)) =
  (styleStack w ++ [mergeStyle (currentStyle w) patch])%list.
Proof. reflexivity. Qed.

Lemma popStyle_run (w : Writer) :
  popStyle w = (state (popStyle w), Ok (currentStyle (state (popStyle w)))).
Proof. reflexivity. Qed.

Lemma popStyle_stack (w : Writer) :
  styleStack (state (popStyle w)) = removelast (styleStack w).
Proof. reflexivity. Qed.

Lemma removelast_snoc {A : Type} (l : list A) (a : A) :
  removelast (l ++ [a]) = l.
Proof. apply removelast_last. Qed.

Lemma currentStyle_snoc (w w' : Writer) s :
  styleStack w' = (styleStack w ++ [s])%list -> currentStyle w' = s.
Proof. unfold currentStyle. intros ->. rewrite last_snoc. reflexivity. Qed.

Lemma currentStyle_same (w w' : Writer) :
  styleStack w' = styleStack w -> baseStyle w' = baseStyle w ->
  currentStyle w' = currentStyle w.
Proof. unfold currentStyle. intros -> ->. reflexivity. Qed.

Lemma pop_push_stack patch (w : Writer) :
  styleStack (state (popStyle (state (pushStyle patch w)))) = styleStack w.
Proof. rewrite popStyle_stack, pushStyle_stack. apply removelast_snoc. Qed.

(** C5 (as amended): on a live document, [pushStyle(P)] immediately
    followed by [popStyle()] restores the style stack and the current
    style, and [popStyle] returns that style; it sets the font, size and
    colour of the document to those of the restored style and the cursor's
    left position to the restored style's [leftMargin] (which is the
    position before the push only when the cursor stood at that
    margin). *)
Theorem push_pop_restores_style (patch : StylePatch) (w : Writer)
    (Hlive : live w) :
  let w' := state (popStyle (state (pushStyle patch w))) in
  styleStack w' = styleStack w /\
  currentStyle w' = currentStyle w /\
  outcome (popStyle (state (pushStyle patch w))) = Ok (currentStyle w) /\
  leftMargin (currentStyle w') = leftMargin (currentStyle w) /\
  doc_x (doc w') = leftMargin (currentStyle w) /\
  doc_font (doc w') = fonts !! EFont_index (default NORM (font (currentStyle w))) /\
  doc_fontSize (doc w') = fontSize (currentStyle w) /\
  doc_fillColor (doc w') = fillColor (currentStyle w).
Proof.
  cbv zeta.
  assert (Hs : styleStack (state (popStyle (state (pushStyle patch w)))) =
               styleStack w) by apply pop_push_stack.
  assert (Hc : currentStyle (state (popStyle (state (pushStyle patch w)))) =
               currentStyle w) by (apply currentStyle_same; [exact Hs|reflexivity]).
  split; [exact Hs|]. split; [exact Hc|].
  split; [rewrite popStyle_run; cbn [outcome snd]; rewrite Hc; reflexivity|].
  split; [rewrite Hc; reflexivity|].
  rewrite <- Hc. repeat split; reflexivity.
Qed.

(** C6: on a live document, pushing a patch with margin [d] on a current
    style with margin [m] returns and activates a merged style whose
    [leftMargin] is [m + d], every other field being the patch's when the
    patch has it and the current style's otherwise; and
    [indentStart(); indentStart();
    indentEnd()] leaves the current left margin, and the cursor, one indent
    step above the margin before the sequence. *)
Theorem leftMargin_accumulates (patch : StylePatch) (w : Writer) (m d step : num)
    (Hlive : live w)
    (Hm : leftMargin (currentStyle w) = Some m)
    (Hd : pLeftMargin patch = Some (Some d))
    (Hstep : indentStep (style_format (style w)) = Some step) :
  let merged := mergeStyle (currentStyle w) patch in
  let w3 := state (indentEnd (state (indentStart (state (indentStart w))))) in
  (outcome (pushStyle patch w) = Ok merged /\
   currentStyle (state (pushStyle patch w)) = merged /\
   leftMargin merged = Some (nadd m d) /\
   doc_x (doc (state (pushStyle patch w))) = Some (nadd m d) /\
   font merged = default (font (currentStyle w)) (pFont patch) /\
   fontSize merged = default (fontSize (currentStyle w)) (pFontSize patch) /\
   fillColor merged = default (fillColor (currentStyle w)) (pFillColor patch) /\
   lineGap merged = default (lineGap (currentStyle w)) (pLineGap patch)) /\
  (leftMargin (currentStyle w3) = Some (nadd m step) /\
   doc_x (doc w3) = Some (nadd m step) /\
   styleStack w3 = (styleStack w ++ [currentStyle w3])%list).
Proof.
  cbv zeta.
  assert (Hmerged : leftMargin (mergeStyle (currentStyle w) patch) =
                    Some (nadd m d)).
  { unfold mergeStyle. cbn [leftMargin]. rewrite Hm, Hd. reflexivity. }
  split.
  - split; [reflexivity|]. split.
    { apply (currentStyle_snoc w). apply pushStyle_stack. }
    split; [exact Hmerged|]. split.
    { rewrite <- Hmerged. reflexivity. }
    repeat split; reflexivity.
  - set (indent := {| pFont := None; pFontSize := None; pFillColor := None;
                      pLeftMargin := Some (indentStep (style_format (style w)));
                      pLineGap := None |}).
    set (w1 := state (pushStyle indent w)).
    set (s1 := mergeStyle (currentStyle w) indent).
    assert (H1 : styleStack w1 = (styleStack w ++ [s1])%list) by reflexivity.
    assert (E1 : state (indentStart w) = w1) by reflexivity.
    rewrite E1.
    assert (Hsty : style w1 = style w) by reflexivity.
    assert (E2 : state (indentStart w1) = state (pushStyle indent w1)).
    { unfold indentStart, bind, get, state. cbn [fst]. rewrite Hsty. reflexivity. }
    rewrite E2.
    assert (E3 : forall v : Writer, state (indentEnd v) = state (popStyle v))
      by reflexivity.
    rewrite E3.
    assert (Hst : styleStack (state (popStyle (state (pushStyle indent w1)))) =
                  (styleStack w ++ [s1])%list).
    { rewrite pop_push_stack. exact H1. }
    assert (Hcur : currentStyle (state (popStyle (state (pushStyle indent w1)))) = s1).
    { apply (currentStyle_snoc w). exact Hst. }
    assert (Hs1 : leftMargin s1 = Some (nadd m step)).
    { unfold s1, mergeStyle, indent. cbn [leftMargin pLeftMargin].
      rewrite Hm, Hstep. reflexivity. }
    split; [rewrite Hcur; exact Hs1|]. split.
    + rewrite <- Hs1, <- Hcur. reflexivity.
    + rewrite Hcur. exact Hst.
Qed.

Lemma withStyle_run patch (fn : TextStyle -> W unit) (w w2 : Writer) r :
  fn (mergeStyle (currentStyle w) patch) (state (pushStyle patch w)) = (w2, r) ->
  withStyle patch fn w =
  match r with
  | Ok _ => (state (popStyle w2), Ok tt)
  | Throw e => (w2, Throw e)
  end.
Proof.
  intros Hfn. unfold withStyle. unfold bind at 1. rewrite pushStyle_run.
  unfold bind at 1. rewrite Hfn. destruct r; reflexivity.
Qed.

Lemma popStyle_balanced (w w2 : Writer) s :
  styleStack w2 = (styleStack w ++ [s])%list -> baseStyle w2 = baseStyle w ->
  styleStack (state (popStyle w2)) = styleStack w /\
  currentStyle (state (popStyle w2)) = currentStyle w.
Proof.
  intros Hstack Hbase.
  assert (Hs : styleStack (state (popStyle w2)) = styleStack w).
  { rewrite popStyle_stack, Hstack. apply removelast_snoc. }
  split; [exact Hs|]. apply currentStyle_same; [exact Hs|exact Hbase].
Qed.

(** C3 (as amended): on a live document, [withStyle(P, fn)] pushes [P]
    and runs [fn] with the merged style on the pushed stack.  When [fn]
    returns, and leaves the document live, the style is popped and
    [withStyle] returns: a block that leaves the stack as it found it
    gets the stack, and the current style, of before the call back.  When
    [fn] throws, [withStyle] throws the same error from the state [fn]
    left: nothing is popped, the pushed style stays on top. *)
Theorem withStyle_pops_when_block_returns (patch : StylePatch)
    (fn : TextStyle -> W unit) (w w2 : Writer) (r : result unit)
    (Hlive : live w) (Hafter : live w2)
    (Hfn : fn (mergeStyle (currentStyle w) patch) (state (pushStyle patch w))
           = (w2, r))
    (Hstack : styleStack w2 =
              (styleStack w ++ [mergeStyle (currentStyle w) patch])%list)
    (Hbase : baseStyle w2 = baseStyle w) :
  match r with
  | Ok _ =>
      withStyle patch fn w = (state (popStyle w2), Ok tt) /\
      styleStack (state (withStyle patch fn w)) = styleStack w /\
      currentStyle (state (withStyle patch fn w)) = currentStyle w
  | Throw e =>
      withStyle patch fn w = (w2, Throw e) /\
      styleStack (state (withStyle patch fn w)) =
        (styleStack w ++ [mergeStyle (currentStyle w) patch])%list /\
      currentStyle (state (withStyle patch fn w)) =
        mergeStyle (currentStyle w) patch
  end.
Proof.
  pose proof (withStyle_run patch fn w w2 r Hfn) as Hrun.
  destruct r as [[]|e]; rewrite Hrun; cbn [state fst].
  - split; [reflexivity|].
    apply (popStyle_balanced w w2 (mergeStyle (currentStyle w) patch));
      assumption.
  - split; [reflexivity|]. split; [exact Hstack|].
    apply (currentStyle_snoc w). exact Hstack.
Qed.

(** *** The constructor *)

(** C4 (as amended): an external style configuration given to the
    constructor replaces the default style as a whole: [this.style] is the
    given object, so an option it has is the one in force there and an
    option it lacks is lacking, not defaulted; the margins of the document
    are taken from it. Without one, [this.style] is the documented
    defaults. *)
Theorem external_style_replaces_defaults (outputFilePath : option string)
    (ext : ApiStyle) :
  style (constructor outputFilePath (Some ext)) = ext /\
  doc_margins (doc (constructor outputFilePath (Some ext))) =
    {| left := horizontalMargin (style_format ext);
       right := horizontalMargin (style_format ext);
       top := verticalMargin (style_format ext);
       bottom := verticalMargin (style_format ext) |} /\
  style (constructor outputFilePath None) = defaultStyle.
Proof. repeat split; reflexivity. Qed.

(** *** Drawing leaves the core of the writer alone *)

#[local] Abbreviation SameCore := (@sameCore num).

#[local] Instance sameCore_preorder : PreOrder SameCore.
Proof.
  split.
  - intros w. reflexivity.
  - intros w1 w2 w3 H12 H23. unfold sameCore in *. congruence.
Qed.

Lemma core_newPages k (w : Writer) : core (newPages k w) = core w.
Proof.
  revert w. induction k as [|k IH]; intros w; simpl; [reflexivity|].
  rewrite IH. reflexivity.
Qed.

Lemma core_typed c (w : Writer) : core (typed c w) = core w.
Proof.
  unfold typed. cbv zeta.
  match goal with
  | |- core (set_doc _ ?v) = _ => transitivity (core v); [reflexivity|]
  end.
  rewrite core_newPages. reflexivity.
Qed.

Ltac core_leaf :=
  match goal with
  | |- steady _ (modify _) => apply steady_modify; intros ?; reflexivity
  | |- steady _ (modifyDoc _) => apply steady_modify; intros ?; reflexivity
  end.

Lemma core_doc_text c : steady SameCore (doc_text c).
Proof. apply steady_modify. intros w. apply core_typed. Qed.

Lemma core_setStyle s : steady SameCore (setStyle s).
Proof. unfold setStyle. core_leaf. Qed.

Lemma core_lineBreak n : steady SameCore (lineBreak n).
Proof. unfold lineBreak, doc_moveDown. core_leaf. Qed.

Lemma core_doc_moveUp : steady SameCore doc_moveUp.
Proof. unfold doc_moveUp. core_leaf. Qed.

Lemma core_doc_rect rx ry rw rh color :
  steady SameCore (doc_rect rx ry rw rh color).
Proof. unfold doc_rect. core_leaf. Qed.

Lemma core_textImpl str options : steady SameCore (textImpl str options).
Proof.
  unfold textImpl.
  repeat first [ apply core_doc_text | steady_step ].
Qed.

Lemma core_withStyle patch (fn : TextStyle -> W unit) :
  (forall s, steady SameCore (fn s)) -> steady SameCore (withStyle patch fn).
Proof.
  intros Hfn w.
  destruct (Hfn (mergeStyle (currentStyle w) patch) (state (pushStyle patch w)))
    as ([] & w2 & Hrun & Hcore).
  unfold sameCore, core in Hcore. injection Hcore as E1 E2 E3 E4 E5 E6 E7 E8.
  pose proof (withStyle_run patch fn w w2 (Ok tt) Hrun) as Hw.
  destruct (popStyle_balanced w w2 _ E4 E5) as [Hs _].
  exists tt, (state (popStyle w2)). split; [exact Hw|].
  unfold sameCore, core. rewrite Hs.
  change (style (state (popStyle w2))) with (style w2).
  change (currentSectionName (state (popStyle w2))) with (currentSectionName w2).
  change (docOutlines (state (popStyle w2))) with (docOutlines w2).
  change (baseStyle (state (popStyle w2))) with (baseStyle w2).
  change (headerGap (state (popStyle w2))) with (headerGap w2).
  change (paraGap (state (popStyle w2))) with (paraGap w2).
  change (doc_outline (doc (state (popStyle w2)))) with (doc_outline (doc w2)).
  rewrite E1, E2, E3, E5, E6, E7, E8. reflexivity.
Qed.

Lemma core_text str patch options : steady SameCore (text str patch options).
Proof.
  unfold text. steady_step; [apply core_withStyle; intros _|];
    apply core_textImpl.
Qed.

Ltac core_method :=
  repeat match goal with
  | |- steady _ (withStyle _ _) => apply core_withStyle; intros ?
  | |- steady _ (text _ _ _) => apply core_text
  | |- steady _ (textImpl _ _) => apply core_textImpl
  | |- steady _ (doc_text _) => apply core_doc_text
  | |- steady _ (lineBreak _) => apply core_lineBreak
  | |- steady _ doc_moveUp => apply core_doc_moveUp
  | |- steady _ (doc_rect _ _ _ _ _) => apply core_doc_rect
  | _ => steady_step
  | _ => core_leaf
  end.

(** *** The outline *)

Lemma core_outline (w w' : Writer) :
  sameCore w w' ->
  docOutlines w' = docOutlines w /\ doc_outline (doc w') = doc_outline (doc w).
Proof.
  unfold sameCore, core. intros E. injection E as E1 E2 E3 E4 E5 E6 E7 E8.
  auto.
Qed.

(** A heading draws its text and then calls [addOutline] on a writer with
    the same outline. *)
Lemma header_run level str anchor (w : Writer) :
  exists w1, header level str anchor w = addOutline level str w1 /\
             sameCore w w1.
Proof.
  unfold header. unfold bind at 1. unfold get at 1. cbv iota beta.
  match goal with
  | |- context [bind ?m _] =>
      assert (Hm : steady SameCore m) by core_method;
      destruct (steady_run _ m w Hm) as ([] & Hrun & Hcore);
      set (w1 := state (m w)) in *; clearbody w1;
      exists w1; split; [|exact Hcore];
      unfold bind at 1; rewrite Hrun
  end.
  reflexivity.
Qed.

Lemma apiHeader_run method endpoint level (w : Writer) :
  exists w1, apiHeader method endpoint level w =
             addOutline level (method ++ " " ++ endpoint) w1 /\
             sameCore w w1.
Proof.
  unfold apiHeader. unfold bind at 1. unfold get at 1. cbv iota beta zeta.
  match goal with
  | |- context [bind ?m _] =>
      assert (Hm : steady SameCore m) by core_method;
      destruct (steady_run _ m w Hm) as ([] & Hrun & Hcore);
      set (w1 := state (m w)) in *; clearbody w1;
      exists w1; split; [|exact Hcore];
      unfold bind at 1; rewrite Hrun
  end.
  reflexivity.
Qed.

Lemma addOutline_skipped level str (w : Writer) :
  (Z.of_nat (length (docOutlines w)) < level)%Z ->
  addOutline level str w =
  (w, Throw (nestingMessage level (length (docOutlines w)))).
Proof.
  intros Hlevel. unfold addOutline. unfold bind at 1. unfold get at 1.
  cbv iota beta zeta.
  assert (E0 : (level =? 0)%Z = false) by lia.
  assert (E1 : (level <=? Z.of_nat (length (docOutlines w)))%Z = false) by lia.
  rewrite E0, E1, andb_false_r. reflexivity.
Qed.

(** C2: a call of [addOutline] with a level above the length of the
    outline path throws the header-nesting error and leaves the writer, and
    so the outline path, as it was; [header] and [apiHeader] reach that
    same check, throw the same error and leave the outline path and the
    outline items as they were. *)
Theorem addOutline_rejects_skipped_level (w : Writer) (level : Z)
    (str : string) (anchor : option string) (method endpoint : string)
    (Hlevel : (Z.of_nat (length (docOutlines w)) < level)%Z) :
  let error := Throw (nestingMessage level (length (docOutlines w))) in
  addOutline level str w = (w, error) /\
  (outcome (header level str anchor w) = error /\
   docOutlines (state (header level str anchor w)) = docOutlines w /\
   doc_outline (doc (state (header level str anchor w))) =
     doc_outline (doc w)) /\
  (outcome (apiHeader method endpoint level w) = error /\
   docOutlines (state (apiHeader method endpoint level w)) = docOutlines w /\
   doc_outline (doc (state (apiHeader method endpoint level w))) =
     doc_outline (doc w)).
Proof.
  cbv zeta. split; [apply addOutline_skipped; exact Hlevel|]. split.
  - destruct (header_run level str anchor w) as (w1 & -> & Hcore).
    apply core_outline in Hcore as [Hp Hi].
    rewrite addOutline_skipped by (rewrite Hp; exact Hlevel).
    cbn [outcome state fst snd]. rewrite Hp. auto.
  - destruct (apiHeader_run method endpoint level w) as (w1 & -> & Hcore).
    apply core_outline in Hcore as [Hp Hi].
    rewrite addOutline_skipped by (rewrite Hp; exact Hlevel).
    cbn [outcome state fst snd]. rewrite Hp. auto.
Qed.

Lemma pathStep_take level (path : list nat) newItem :
  (0 <= level <= Z.of_nat (length path))%Z ->
  pathStep level path newItem = (take (Z.to_nat level) path ++ [newItem])%list.
Proof.
  intros Hlevel. unfold pathStep.
  destruct (Z.eqb_spec level (Z.of_nat (length path))) as [->|Hne].
  - rewrite Nat2Z.id, take_ge by lia. reflexivity.
  - assert (Hlt : Z.to_nat level < length path) by lia.
    replace (Z.to_nat level + 1) with (S (Z.to_nat level)) by lia.
    rewrite (take_S_r _ _ newItem) by (apply list_lookup_insert_eq; exact Hlt).
    rewrite take_insert_ge by lia. reflexivity.
Qed.

Lemma length_pathStep level (path : list nat) newItem :
  (0 <= level <= Z.of_nat (length path))%Z ->
  length (pathStep level path newItem) = Z.to_nat level + 1.
Proof.
  intros Hlevel. rewrite pathStep_take by exact Hlevel.
  rewrite length_app, length_take_le by lia. reflexivity.
Qed.

(** The item a heading at [level] creates. *)
Lemma addOutline_fits level str (w : Writer) :
  (0 <= level <= Z.of_nat (length (docOutlines w)))%Z ->
  exists w',
    addOutline level str w = (w', Ok tt) /\
    docOutlines w' =
      pathStep level (docOutlines w) (length (doc_outline (doc w))) /\
    doc_outline (doc w') =
      (doc_outline (doc w) ++
       [{| item_parent :=
             if (level =? 0)%Z then None
             else docOutlines w !! Z.to_nat (level - 1);
           item_title := str |}])%list.
Proof.
  intros Hlevel. unfold addOutline, pathStep.
  unfold bind at 1. unfold get at 1. cbv iota beta zeta.
  destruct (Z.eqb_spec level 0) as [->|Hne].
  - unfold bind, outline_addItem, ret, modify.
    destruct (Z.eqb_spec 0 (Z.of_nat (length (docOutlines w)))) as [E|E];
      cbn [docOutlines set_doc].
    + eexists. split; [reflexivity|]. split; reflexivity.
    + assert (E' : (0 <? Z.of_nat (length (docOutlines w)))%Z = true) by lia.
      rewrite E'. eexists. split; [reflexivity|]. split; reflexivity.
  - assert (E1 : (0 <? level)%Z = true) by lia.
    assert (E2 : (level <=? Z.of_nat (length (docOutlines w)))%Z = true) by lia.
    rewrite E1, E2. cbn [andb].
    destruct (docOutlines w !! Z.to_nat (level - 1)) as [parent|] eqn:Hparent.
    2: { apply lookup_ge_None_1 in Hparent. lia. }
    unfold bind, outline_addItem, ret, modify. cbn [docOutlines set_doc].
    destruct (Z.eqb_spec level (Z.of_nat (length (docOutlines w)))) as [E|E].
    + eexists. split; [reflexivity|]. split; reflexivity.
    + assert (E' : (level <? Z.of_nat (length (docOutlines w)))%Z = true) by lia.
      rewrite E'. eexists. split; [reflexivity|]. split; reflexivity.
Qed.

Lemma linkedPath_step (items : list OutlineItem) (path : list nat) level str :
  linkedPath items path ->
  (0 <= level <= Z.of_nat (length path))%Z ->
  linkedPath
    (items ++ [{| item_parent := if (level =? 0)%Z then None
                                 else path !! Z.to_nat (level - 1);
                  item_title := str |}])
    (take (Z.to_nat level) path ++ [length items]).
Proof.
  intros Hlinked Hlevel k id Hk.
  assert (Hlen : length (take (Z.to_nat level) path) = Z.to_nat level)
    by (apply length_take_le; lia).
  destruct (Nat.lt_ge_cases k (Z.to_nat level)) as [Hlt|Hge].
  - rewrite lookup_app_l in Hk by lia.
    rewrite lookup_take_lt in Hk by exact Hlt.
    destruct (Hlinked k id Hk) as (item & Hitem & Hparent).
    exists item. split; [apply lookup_app_l_Some; exact Hitem|].
    rewrite Hparent. destruct k as [|j]; [reflexivity|].
    rewrite lookup_app_l by lia. rewrite lookup_take_lt by lia. reflexivity.
  - rewrite lookup_app_r in Hk by lia. rewrite Hlen in Hk.
    destruct (k - Z.to_nat level) as [|n] eqn:Hk0; [|destruct n; discriminate].
    injection Hk as <-.
    assert (k = Z.to_nat level) as -> by lia.
    eexists. split; [apply list_lookup_middle; reflexivity|].
    cbn [item_parent].
    destruct (Z.eqb_spec level 0) as [->|Hne]; [reflexivity|].
    destruct (Z.to_nat level) as [|j] eqn:Hj; [lia|].
    replace (Z.to_nat (level - 1)) with j by lia.
    rewrite lookup_app_l by lia. rewrite lookup_take_lt by lia. reflexivity.
Qed.

Lemma perform_heading (c : Call) level (w : Writer) :
  heading c = Some level ->
  exists w1 str, perform c w = addOutline level str w1 /\ sameCore w w1.
Proof.
  destruct c; try discriminate; intros [= ->]; cbn [perform].
  - destruct (header_run level str anchor w) as (w1 & Hrun & Hcore). eauto.
  - destruct (apiHeader_run method endpoint level w)
      as (w1 & Hrun & Hcore). eauto.
Qed.

(** One fitting heading: it returns, and the path and the tree step as
    [pathStep] and [linkedPath_step] say. *)
Lemma heading_step (c : Call) level (w : Writer) :
  heading c = Some level ->
  (0 <= level <= Z.of_nat (length (docOutlines w)))%Z ->
  linked w ->
  outcome (perform c w) = Ok tt /\
  docOutlines (state (perform c w)) =
    pathStep level (docOutlines w) (length (doc_outline (doc w))) /\
  length (doc_outline (doc (state (perform c w)))) =
    S (length (doc_outline (doc w))) /\
  linked (state (perform c w)).
Proof.
  intros Hc Hlevel Hlinked.
  destruct (perform_heading c level w Hc) as (w1 & str & -> & Hcore).
  apply core_outline in Hcore as [Hp Hi].
  destruct (addOutline_fits level str w1) as (w' & -> & Hpath & Hitems);
    [rewrite Hp; exact Hlevel|].
  cbn [outcome state fst snd]. rewrite Hp, Hi in *.
  split; [reflexivity|]. split; [exact Hpath|]. split.
  - rewrite Hitems, length_app. simpl. lia.
  - unfold linked. rewrite Hpath, Hitems, pathStep_take by exact Hlevel.
    apply linkedPath_step; assumption.
Qed.

Lemma outline_after_headings (calls : list Call) (w : Writer) :
  linked w -> levelsFit calls w = true ->
  allReturn calls w /\
  linked (performAll calls w) /\
  docOutlines (performAll calls w) =
    pathAfter (levels calls) (docOutlines w) (length (doc_outline (doc w))) /\
  length (docOutlines (performAll calls w)) =
    match last (levels calls) with
    | Some level => Z.to_nat level + 1
    | None => length (docOutlines w)
    end.
Proof.
  revert w. induction calls as [|c calls IH]; intros w Hlinked Hfit.
  - repeat split; auto.
  - cbn [levelsFit] in Hfit.
    destruct (heading c) as [level|] eqn:Hc; [|discriminate].
    apply andb_prop in Hfit as [Hfit Hrest].
    apply andb_prop in Hfit as [H0 H1].
    assert (Hlevel : (0 <= level <= Z.of_nat (length (docOutlines w)))%Z) by lia.
    destruct (heading_step c level w Hc Hlevel Hlinked)
      as (Hok & Hpath & Hitems & Hlinked').
    destruct (IH _ Hlinked' Hrest) as (Hall & Hl & Hp & Hlen).
    rewrite performAll_cons. cbn [levels]. rewrite Hc.
    cbn [allReturn pathAfter].
    split; [auto|]. split; [exact Hl|]. split.
    + rewrite Hp, Hpath, Hitems. reflexivity.
    + rewrite Hlen, last_cons.
      destruct (last (levels calls)); [reflexivity|].
      rewrite Hpath. apply length_pathStep. exact Hlevel.
Qed.

(** C1 (as amended): for every sequence of [header] and [apiHeader] calls
    whose levels are non-negative and at most the length of the outline
    path when they are made, on a writer within the caller's contract
    whose path is linked in the outline tree: every call returns; a level
    equal to the length appends the new item to the path and a level
    below it replaces the entry at that level and drops the deeper ones
    ([pathAfter]); so after the
    sequence the length of the path is the level of the LAST call plus one
    (not the maximum level seen), and the item at every level [k > 0] was
    added as a child of the item the path holds at level [k - 1]. *)
Theorem outline_path_follows_headings (calls : list Call) (w : Writer)
    (Hready : ready w)
    (Hlinked : linked w) (Hfit : levelsFit calls w = true) :
  allReturn calls w /\
  docOutlines (performAll calls w) =
    pathAfter (levels calls) (docOutlines w) (length (doc_outline (doc w))) /\
  length (docOutlines (performAll calls w)) =
    match last (levels calls) with
    | Some level => Z.to_nat level + 1
    | None => length (docOutlines w)
    end /\
  (forall k id,
     docOutlines (performAll calls w) !! S k = Some id ->
     exists item,
       doc_outline (doc (performAll calls w)) !! id = Some item /\
       item_parent item = docOutlines (performAll calls w) !! k).
Proof.
  destruct (outline_after_headings calls w Hlinked Hfit)
    as (Hall & Hl & Hp & Hlen).
  split; [exact Hall|]. split; [exact Hp|]. split; [exact Hlen|].
  intros k id Hk. exact (Hl (S k) id Hk).
Qed.

(** *** Text runs *)

Lemma textImpl_run str options (w : Writer) :
  textImpl str options w = (typed (textCall str options w) w, Ok tt).
Proof.
  unfold textImpl, textCall, bind, get.
  destruct (opt_x options), (opt_y options); reflexivity.
Qed.


Lemma ops_newPages k (w : Writer) :
  doc_ops (doc (newPages k w)) = doc_ops (doc w).
Proof.
  revert w. induction k as [|k IH]; intros w; simpl; [reflexivity|].
  rewrite IH. reflexivity.
Qed.

Lemma ops_typed c (w : Writer) :
  doc_ops (doc (typed c w)) =
  (doc_ops (doc w) ++ [drawing (doc w) c])%list.
Proof.
  unfold typed. cbv zeta. cbn [doc set_doc doc_ops set_cursor].
  rewrite ops_newPages. reflexivity.
Qed.

(** *** Data fields *)

Lemma dataField_restores origX field (w : Writer) :
  wp (dataField origX field) (fun _ w' => doc_x (doc w') = origX) w.
Proof.
  unfold dataField. cbv zeta.
  eapply (wp_after SameCore); [core_method|intros _ w1 _].
  eapply (wp_after SameCore); [core_method|intros _ w2 _].
  eapply (wp_after SameCore); [core_method|intros _ w3 _].
  apply wp_modify. reflexivity.
Qed.

Lemma dataFields_loop origX fields i (w : Writer) :
  doc_x (doc w) = origX ->
  wp (forEachFrom i fields (fun field _ => dataField origX field))
     (fun _ w' => doc_x (doc w') = origX) w.
Proof.
  revert i w. induction fields as [|field fields IH]; intros i w Hx; simpl.
  - apply wp_ret. exact Hx.
  - apply wp_bind. eapply wp_mono; [apply dataField_restores|].
    intros [] w1 H1. apply IH. exact H1.
Qed.

(** C10: on a writer within the caller's contract, [dataFields] returns
    with the cursor's [x] where it was when it was called: the [x] read on
    entry is put back after every field, also after a field whose
    description was placed at an absolute [x]. *)
Theorem dataFields_preserves_cursor_x (fields : list DataField) (w : Writer)
    (Hready : ready w) :
  outcome (dataFields fields w) = Ok tt /\
  doc_x (doc (state (dataFields fields w))) = doc_x (doc w) /\
  (forall field (v : Writer),
     ready v ->
     outcome (dataField (doc_x (doc w)) field v) = Ok tt /\
     doc_x (doc (state (dataField (doc_x (doc w)) field v))) = doc_x (doc w)).
Proof.
  split; [|split].
  - destruct (wp_run (dataFields fields) _ w
                (dataFields_loop (doc_x (doc w)) fields 0 w eq_refl))
      as ([] & Hok & _).
    exact Hok.
  - destruct (wp_run (dataFields fields) _ w
                (dataFields_loop (doc_x (doc w)) fields 0 w eq_refl))
      as ([] & _ & Hx).
    exact Hx.
  - intros field v _.
    destruct (wp_run _ _ v (dataField_restores (doc_x (doc w)) field v))
      as ([] & Hok & Hx).
    auto.
Qed.

(** *** Enumerations *)





(** *** The finishing pass *)





Lemma switchToPage_run i (w : Writer) :
  i < length (doc_pages (doc w)) ->
  doc_switchToPage i w =
  (set_doc (set_pages (doc_pages (doc w)) i (doc w)) w, Ok tt).
Proof.
  intros Hi. unfold doc_switchToPage.
  destruct (Nat.ltb_spec i (length (doc_pages (doc w)))); [reflexivity|lia].
Qed.

Lemma currentPage_run (w : Writer) page :
  doc_pages (doc w) !! doc_page (doc w) = Some page ->
  doc_currentPage w = (w, Ok page).
Proof. intros Hp. unfold doc_currentPage. rewrite Hp. reflexivity. Qed.

Lemma setPageMargins_run t b (w : Writer) page :
  doc_pages (doc w) !! doc_page (doc w) = Some page ->
  doc_setPageMargins t b w =
  (set_doc
     (set_page
        {| height := height page;
           margins := {| left := left (margins page);
                         right := right (margins page);
                         top := t; bottom := b |} |} (doc w)) w,
   Ok tt).
Proof.
  intros Hp. unfold doc_setPageMargins. unfold bind at 1.
  rewrite (currentPage_run w page Hp). reflexivity.
Qed.

(** *** Pages are never lost *)

#[local] Abbreviation StaysOnPage := (@staysOnPage num).

#[local] Instance staysOnPage_preorder : PreOrder StaysOnPage.
Proof.
  split.
  - intros w. split; [lia|auto].
  - intros w1 w2 w3 [A1 A2] [B1 B2]. split; [lia|auto].
Qed.

Lemma staysOnPage_same (w w' : Writer) :
  length (doc_pages (doc w')) = length (doc_pages (doc w)) ->
  doc_page (doc w') = doc_page (doc w) ->
  staysOnPage w w'.
Proof.
  intros H1 H2. unfold staysOnPage, onPage. rewrite H1, H2. split; [lia|auto].
Qed.

Lemma onPage_newPage (w : Writer) : onPage (newPage w).
Proof. unfold onPage, newPage. cbn. rewrite length_app. simpl. lia. Qed.

Lemma staysOnPage_newPage (w : Writer) : staysOnPage w (newPage w).
Proof.
  split; [|intros _; apply onPage_newPage].
  unfold newPage. cbn. rewrite length_app. lia.
Qed.

Lemma staysOnPage_newPages k (w : Writer) : staysOnPage w (newPages k w).
Proof.
  revert w. induction k as [|k IH]; intros w; cbn [newPages].
  - reflexivity.
  - transitivity (newPage w); [apply staysOnPage_newPage|apply IH].
Qed.

Lemma staysOnPage_typed c (w : Writer) : staysOnPage w (typed c w).
Proof.
  unfold typed. cbv zeta.
  set (w1 := set_doc _ w).
  transitivity w1; [apply staysOnPage_same; reflexivity|].
  transitivity (newPages (snd (textLayout (doc w) c)) w1);
    [apply staysOnPage_newPages|apply staysOnPage_same; reflexivity].
Qed.

Lemma staysOnPage_addPage (w : Writer) : staysOnPage w (state (doc_addPage w)).
Proof.
  transitivity (newPage w);
    [apply staysOnPage_newPage|apply staysOnPage_same; reflexivity].
Qed.

Ltac stays_leaf :=
  match goal with
  | |- steady _ (modify (typed _)) =>
      apply steady_modify; intros ?; apply staysOnPage_typed
  | |- steady _ (modify _) =>
      apply steady_modify; intros ?;
      first [ apply staysOnPage_same; reflexivity
            | apply staysOnPage_addPage ]
  | |- steady _ (modifyDoc _) =>
      apply steady_modify; intros ?; apply staysOnPage_same; reflexivity
  end.

Ltac stays_method :=
  unfold objectSchema;
  unfold subHeader, para, description, dataFields, dataField, schemaType,
    example, enumValues, enumValue, newSection, indentStart, indentEnd,
    resetStyle;
  unfold text, withStyle, pushStyle, popStyle, setStyle, textImpl, lineBreak,
    doc_moveDown, doc_moveUp, doc_rect, doc_text, doc_addPage;
  cbv zeta;
  repeat first [ steady_step | stays_leaf ].

Lemma stays_text str patch options :
  steady StaysOnPage (text str patch options).
Proof. stays_method. Qed.

Lemma stays_pushStyle patch : steady StaysOnPage (pushStyle patch).
Proof. stays_method. Qed.

Lemma stays_popStyle : steady StaysOnPage popStyle.
Proof. stays_method. Qed.



Lemma onPage_page (w : Writer) :
  onPage w -> exists page, doc_pages (doc w) !! doc_page (doc w) = Some page.
Proof. intros Hon. apply lookup_lt_is_Some_2, Hon. Qed.

Lemma setPageMargins_safe t b (w : Writer) :
  onPage w ->
  wp (doc_setPageMargins t b)
     (fun _ w' => staysOnPage w w' /\ onPage w') w.
Proof.
  intros Hon. destruct (onPage_page w Hon) as (page & Hpage).
  eexists tt, _. split; [apply (setPageMargins_run t b w page Hpage)|].
  assert (Hs : forall p, staysOnPage w (set_doc (set_page p (doc w)) w)).
  { intros p. apply staysOnPage_same; [|reflexivity].
    cbn. apply length_insert. }
  split; [apply Hs|]. apply Hs, Hon.
Qed.

Lemma stampBlock_safe count i origTop origBottom (w : Writer) :
  onPage w ->
  wp (stampBlock count i origTop origBottom)
     (fun _ w' => staysOnPage w w') w.
Proof.
  intros Hon. unfold stampBlock. apply wp_bind, wp_get.
  apply (wp_after StaysOnPage).
  { apply steady_when; [typeclasses eauto|apply stays_text]. }
  intros [] w1 H1.
  destruct (onPage_page w1 (proj2 H1 Hon)) as (page & Hpage).
  apply wp_bind. exists page, w1. split; [apply currentPage_run, Hpage|].
  eapply wp_mono; [apply stays_text|].
  intros [] w2 H2. cbv beta in H2. transitivity w1; assumption.
Qed.

Lemma withStyle_safe patch (fn : TextStyle -> W unit) (w : Writer) :
  (forall st v, onPage v -> wp (fn st) (fun _ v' => staysOnPage v v') v) ->
  onPage w ->
  wp (withStyle patch fn) (fun _ w' => staysOnPage w w') w.
Proof.
  intros Hfn Hon. unfold withStyle.
  apply (wp_after StaysOnPage); [apply stays_pushStyle|]. intros st w1 H1.
  apply wp_bind. eapply wp_mono; [apply Hfn, H1, Hon|].
  intros [] w2 H2. cbv beta in H2.
  apply (wp_after StaysOnPage); [apply stays_popStyle|]. intros _ w3 H3.
  apply wp_ret. transitivity w1; [exact H1|].
  transitivity w2; assumption.
Qed.

Lemma stampPage_safe count i (w : Writer) :
  i < length (doc_pages (doc w)) ->
  wp (stampPage count i)
     (fun _ w' =>
        length (doc_pages (doc w)) <= length (doc_pages (doc w'))) w.
Proof.
  intros Hi. unfold stampPage.
  apply wp_bind. eexists tt, _. split; [apply switchToPage_run, Hi|].
  set (w1 := set_doc _ w).
  assert (Hon1 : onPage w1) by exact Hi.
  destruct (onPage_page w1 Hon1) as (page & Hpage).
  apply wp_bind. exists page, w1. split; [apply currentPage_run, Hpage|].
  cbv zeta.
  apply wp_bind. eapply wp_mono; [apply setPageMargins_safe, Hon1|].
  intros [] w2 [H2 Hon2]. cbv beta.
  apply wp_bind.
  apply wp_mono with (Q := fun _ w3 => staysOnPage w2 w3).
  { apply wp_when. destruct (0 <? i)%nat; [|reflexivity].
    apply wp_bind, wp_get. apply withStyle_safe; [|exact Hon2].
    intros _ v Hv. apply stampBlock_safe, Hv. }
  intros [] w3 H3.
  eapply wp_mono; [apply setPageMargins_safe, H3, Hon2|].
  intros [] w4 [H4 _]. cbv beta.
  destruct H2 as [L2 _], H3 as [L3 _], H4 as [L4 _].
  change (length (doc_pages (doc w1))) with (length (doc_pages (doc w))) in L2.
  lia.
Qed.

Lemma stampPages_safe count start n (w : Writer) :
  start + n <= length (doc_pages (doc w)) ->
  wp (forRange start n (stampPage count))
     (fun _ w' =>
        length (doc_pages (doc w)) <= length (doc_pages (doc w'))) w.
Proof.
  revert start w. induction n as [|n IH]; intros start w Hle; cbn [forRange].
  - apply wp_ret. lia.
  - apply wp_bind. eapply wp_mono; [apply stampPage_safe; lia|].
    intros [] w1 H1. cbv beta in H1.
    eapply wp_mono; [apply IH; lia|]. intros [] w2 H2. cbv beta in H2. lia.
Qed.

Lemma finish_safe (w : Writer) :
  wp finish
     (fun _ w' =>
        doc_ended (doc w') = true /\
        length (doc_pages (doc w)) <= length (doc_pages (doc w'))) w.
Proof.
  unfold finish. apply wp_bind, wp_get. cbv zeta.
  apply wp_bind. eapply wp_mono; [apply stampPages_safe; lia|].
  intros [] w1 H1. cbv beta in H1.
  apply wp_modify. split; [reflexivity|exact H1].
Qed.

(** *** The stamps of [finish]

    A text call opens as many pages as the renderer says; when the whole
    of [finish] has opened none, no stamp has. *)










(** *** Frames: what the methods leave alone

    A relation that every field update of the drawing methods respects is
    kept by the methods themselves, whether they return or throw. *)

Section Frames.
Context (Rel : Writer -> Writer -> Prop) `{!PreOrder Rel}.
Hypothesis frame_typed : forall c w, Rel w (typed c w).
Hypothesis frame_addPage : forall w, Rel w (state (doc_addPage w)).
Hypothesis frame_doc : forall (w : Writer) d,
  doc_pages d = doc_pages (doc w) -> doc_outline d = doc_outline (doc w) ->
  Rel w (set_doc d w).
Hypothesis frame_page : forall (w : Writer) page,
  Rel w (set_doc (set_page page (doc w)) w).
Hypothesis frame_stack : forall (w : Writer) stack,
  Rel w (set_styleStack stack w).

Ltac frame_leaf :=
  match goal with
  | |- keeps _ (doc_text _) => apply keeps_modify; intros ?; apply frame_typed
  | |- keeps _ doc_addPage => intros ?; apply frame_addPage
  | |- keeps _ doc_currentPage =>
      intros ?; unfold doc_currentPage; destruct (_ !! _); reflexivity
  | |- keeps _ (doc_switchToPage _) =>
      intros ?; unfold doc_switchToPage; destruct (_ <? _)%nat;
      [apply frame_doc; reflexivity|reflexivity]
  | |- keeps _ (modifyDoc (set_page _)) =>
      apply keeps_modify; intros ?; apply frame_page
  | |- keeps _ (modifyDoc _) =>
      apply keeps_modify; intros ?; apply frame_doc; reflexivity
  | |- keeps _ (modify (fun w => set_styleStack _ w)) =>
      apply keeps_modify; intros ?; apply frame_stack
  | |- keeps _ (modify (set_styleStack _)) =>
      apply keeps_modify; intros ?; apply frame_stack
  end.

Ltac frame_auto := repeat first [ frame_leaf | keeps_step ].

Lemma frame_setStyle s : keeps Rel (setStyle s).
Proof. unfold setStyle. frame_auto. Qed.

Lemma frame_lineBreak n : keeps Rel (lineBreak n).
Proof. unfold lineBreak, doc_moveDown. frame_auto. Qed.

Lemma frame_moveUp : keeps Rel doc_moveUp.
Proof. unfold doc_moveUp. frame_auto. Qed.

Lemma frame_rect rx ry rw rh color : keeps Rel (doc_rect rx ry rw rh color).
Proof. unfold doc_rect. frame_auto. Qed.

Lemma frame_setPageMargins t b : keeps Rel (doc_setPageMargins t b).
Proof. unfold doc_setPageMargins. frame_auto. Qed.

Lemma frame_pushStyle patch : keeps Rel (pushStyle patch).
Proof.
  unfold pushStyle.
  repeat first [ apply frame_setStyle | frame_leaf | keeps_step ].
Qed.

Lemma frame_popStyle : keeps Rel popStyle.
Proof.
  unfold popStyle.
  repeat first [ apply frame_setStyle | frame_leaf | keeps_step ].
Qed.

Lemma frame_withStyle patch (fn : TextStyle -> W unit) :
  (forall s, keeps Rel (fn s)) -> keeps Rel (withStyle patch fn).
Proof.
  intros Hfn. unfold withStyle.
  repeat first [ apply frame_pushStyle | apply frame_popStyle | apply Hfn
               | keeps_step ].
Qed.

Lemma frame_textImpl str options : keeps Rel (textImpl str options).
Proof. unfold textImpl. frame_auto. Qed.

Lemma frame_text str patch options : keeps Rel (text str patch options).
Proof.
  unfold text. keeps_step; [apply frame_withStyle; intros _|];
    apply frame_textImpl.
Qed.

Ltac frame_method :=
  repeat match goal with
  | |- keeps _ (withStyle _ _) => apply frame_withStyle; intros ?
  | |- keeps _ (text _ _ _) => apply frame_text
  | |- keeps _ (pushStyle _) => apply frame_pushStyle
  | |- keeps _ popStyle => apply frame_popStyle
  | |- keeps _ (setStyle _) => apply frame_setStyle
  | |- keeps _ (lineBreak _) => apply frame_lineBreak
  | |- keeps _ doc_moveUp => apply frame_moveUp
  | |- keeps _ (doc_rect _ _ _ _ _) => apply frame_rect
  | |- keeps _ (doc_setPageMargins _ _) => apply frame_setPageMargins
  | _ => frame_leaf
  | _ => keeps_step
  end.

(** The calls that neither add a heading nor start a section. *)
Lemma frame_block (c : Call) :
  heading c = None -> (forall name, c <> NewSection name) ->
  keeps Rel (perform c).
Proof.
  intros Hc Hn.
  destruct c; try discriminate Hc; try (exfalso; eapply Hn; reflexivity);
    cbn [perform];
    unfold addTitlePage, subHeader, para, description, schemaType,
      objectSchema, indentStart, indentEnd, dataFields, dataField, example,
      enumValues, enumValue, finish, stampPage, stampBlock;
    frame_method.
Qed.

(** Headings, for a relation that the outline may change under. *)
Lemma frame_heading (c : Call) level :
  (forall parent str, keeps Rel (outline_addItem parent str)) ->
  (forall (w : Writer) path, Rel w (set_docOutlines path w)) ->
  heading c = Some level ->
  keeps Rel (perform c).
Proof.
  intros Hitem Hpath Hc.
  assert (Hadd : forall l str, keeps Rel (addOutline l str)).
  { intros l str. unfold addOutline.
    repeat first
      [ apply Hitem
      | match goal with
        | |- keeps _ (modify _) => apply keeps_modify; intros ?; apply Hpath
        end
      | keeps_step ]. }
  destruct c; try discriminate Hc; cbn [perform]; unfold header, apiHeader;
    repeat match goal with
    | |- keeps _ (addOutline _ _) => apply Hadd
    | _ => progress frame_method
    end.
Qed.

(** A new section, for a relation that the section name may change
    under. *)
Lemma frame_newSection name :
  (forall (w : Writer) n, Rel w (set_currentSectionName n w)) ->
  keeps Rel (newSection name).
Proof.
  intros Hname. unfold newSection, resetStyle.
  repeat first
    [ match goal with
      | |- keeps _ (modify (set_currentSectionName _)) =>
          apply keeps_modify; intros ?; apply Hname
      end
    | progress frame_method ].
Qed.

End Frames.

(** *** What a method draws *)

Lemma core_fields (w0 w : Writer) :
  sameCore w0 w ->
  style w = style w0 /\ styleStack w = styleStack w0 /\
  baseStyle w = baseStyle w0 /\ currentStyle w = currentStyle w0 /\
  headerGap w = headerGap w0 /\ paraGap w = paraGap w0.
Proof.
  unfold sameCore, core. intros E. injection E as E1 E2 E3 E4 E5 E6 E7 E8.
  unfold currentStyle. rewrite E4, E5. auto 10.
Qed.

Lemma fill_newPages k (w : Writer) :
  doc_fillColor (doc (newPages k w)) = doc_fillColor (doc w).
Proof.
  revert w. induction k as [|k IH]; intros w; simpl; [reflexivity|].
  rewrite IH. reflexivity.
Qed.

Lemma fill_typed c (w : Writer) :
  doc_fillColor (doc (typed c w)) = doc_fillColor (doc w).
Proof.
  unfold typed. cbv zeta. cbn [doc set_doc doc_fillColor set_cursor].
  rewrite fill_newPages. reflexivity.
Qed.

Lemma emits_ret {A : Type} (a : A) (w0 : Writer) f :
  emits w0 f (ret a) [] w0 f.
Proof.
  intros w Hc Hf. exists a, w. repeat split; auto.
  exists []. rewrite app_nil_r. auto.
Qed.

Lemma emits_bind {A B : Type} (m : W A) (k : A -> W B)
    (w0 w1 w2 : Writer) f f1 f2 s1 s2 :
  emits w0 f m s1 w1 f1 ->
  (forall a, emits w1 f1 (k a) s2 w2 f2) ->
  emits w0 f (bind m k) (s1 ++ s2) w2 f2.
Proof.
  intros Hm Hk w Hc Hf.
  destruct (Hm w Hc Hf) as (a & w' & Hrun & Hc' & Hf' & ops1 & Ho1 & Hs1).
  destruct (Hk a w' Hc' Hf')
    as (b & w'' & Hrun2 & Hc'' & Hf'' & ops2 & Ho2 & Hs2).
  exists b, w''. unfold bind. rewrite Hrun.
  split; [exact Hrun2|]. split; [exact Hc''|]. split; [exact Hf''|].
  exists (ops1 ++ ops2)%list.
  rewrite Ho2, Ho1, <- app_assoc, map_app, Hs1, Hs2. auto.
Qed.

Lemma emits_get {A : Type} (k : Writer -> W A) (w0 w1 : Writer) f f1 s :
  (forall w, sameCore w0 w -> emits w0 f (k w) s w1 f1) ->
  emits w0 f (bind get k) s w1 f1.
Proof. intros Hk w Hc Hf. exact (Hk w Hc w Hc Hf). Qed.

Lemma emits_eq {A : Type} (m : W A) (w0 w1 w1' : Writer) f f1 f1' s s' :
  emits w0 f m s w1 f1 ->
  s = s' -> core w1 = core w1' -> f1 = f1' ->
  emits w0 f m s' w1' f1'.
Proof.
  intros Hm <- Hcore <- w Hc Hf.
  destruct (Hm w Hc Hf) as (a & w' & Hrun & Hc' & Hrest).
  exists a, w'. split; [exact Hrun|]. split; [|exact Hrest].
  unfold sameCore in *. congruence.
Qed.

Lemma emits_from {A : Type} (m : W A) (w0 w0' w1 : Writer) f f1 s :
  emits w0 f m s w1 f1 -> core w0 = core w0' -> emits w0' f m s w1 f1.
Proof.
  intros Hm Hcore w Hc Hf. apply Hm; [|exact Hf].
  unfold sameCore in *. congruence.
Qed.

Lemma emits_quiet (g : Writer -> Writer) (w0 : Writer) f :
  (forall w, core (g w) = core w /\
             doc_fillColor (doc (g w)) = doc_fillColor (doc w) /\
             doc_ops (doc (g w)) = doc_ops (doc w)) ->
  emits w0 f (modify g) [] w0 f.
Proof.
  intros Hg w Hc Hf. destruct (Hg w) as (G1 & G2 & G3).
  exists tt, (g w). split; [reflexivity|].
  split; [unfold sameCore in *; congruence|]. split; [congruence|].
  exists []. rewrite app_nil_r. auto.
Qed.

Lemma emits_when (b : bool) (m : W unit) (w0 : Writer) f f1 s :
  emits w0 f m s w0 f1 ->
  emits w0 f (when b m) (if b then s else []) w0 (if b then f1 else f).
Proof. destruct b; simpl; [auto|intros _; apply emits_ret]. Qed.

Lemma emits_lineBreak n (w0 : Writer) f : emits w0 f (lineBreak n) [] w0 f.
Proof. apply emits_quiet. intros w. repeat split; reflexivity. Qed.

Lemma emits_doc_moveUp (w0 : Writer) f : emits w0 f doc_moveUp [] w0 f.
Proof. apply emits_quiet. intros w. repeat split; reflexivity. Qed.

Lemma emits_doc_rect rx ry rw rh color (w0 : Writer) f :
  emits w0 f (doc_rect rx ry rw rh color) [ShownRect color] w0 f.
Proof.
  intros w Hc Hf. eexists tt, _. split; [reflexivity|].
  split; [exact Hc|]. split; [exact Hf|].
  eexists. split; reflexivity.
Qed.

Lemma emits_textImpl str options (w0 : Writer) f :
  emits w0 f (textImpl str options)
    [ShownText f str (lineGap (currentStyle w0)) (eraseIndent options)] w0 f.
Proof.
  intros w Hc Hf. rewrite textImpl_run.
  destruct (core_fields w0 w Hc) as (_ & _ & _ & Hcur & _).
  exists tt, (typed (textCall str options w) w). split; [reflexivity|].
  split; [unfold sameCore; rewrite core_typed; exact Hc|].
  split; [rewrite fill_typed; exact Hf|].
  exists [drawing (doc w) (textCall str options w)].
  split; [apply ops_typed|].
  unfold drawing. cbn [map shownOf]. rewrite Hf.
  unfold textCall. rewrite Hcur.
  destruct (opt_x options), (opt_y options); reflexivity.
Qed.

Lemma pushStyle_state patch (w : Writer) :
  let merged := mergeStyle (currentStyle w) patch in
  state (pushStyle patch w) =
  set_styleStack (styleStack w ++ [merged])
    (set_doc
       (set_cursor (leftMargin merged) (doc_y (doc w))
          (set_active (fonts !! EFont_index (default NORM (font merged)))
             (fontSize merged) (fillColor merged) (doc w))) w).
Proof. reflexivity. Qed.

Lemma popStyle_state (w : Writer) :
  let w1 := set_styleStack (removelast (styleStack w)) w in
  let prev := currentStyle w1 in
  state (popStyle w) =
  set_doc
    (set_cursor (leftMargin prev) (doc_y (doc w))
       (set_active (fonts !! EFont_index (default NORM (font prev)))
          (fontSize prev) (fillColor prev) (doc w))) w1.
Proof. reflexivity. Qed.

Lemma emits_pushStyle patch (w0 : Writer) f :
  emits w0 f (pushStyle patch) []
    (set_styleStack
       (styleStack w0 ++ [mergeStyle (currentStyle w0) patch]) w0)
    (fillColor (mergeStyle (currentStyle w0) patch)).
Proof.
  intros w Hc Hf.
  destruct (core_fields w0 w Hc) as (_ & Hstack & _ & Hcur & _).
  rewrite pushStyle_run. eexists _, _. split; [reflexivity|].
  rewrite pushStyle_state. cbv zeta. rewrite Hcur, Hstack.
  split.
  { unfold sameCore, core in *. cbn. injection Hc as E1 E2 E3 E4 E5 E6 E7 E8.
    congruence. }
  split; [reflexivity|]. exists []. rewrite app_nil_r. auto.
Qed.

Lemma emits_popStyle (w0 : Writer) f :
  let w1 := set_styleStack (removelast (styleStack w0)) w0 in
  emits w0 f popStyle [] w1 (fillColor (currentStyle w1)).
Proof.
  intros w1 w Hc Hf.
  destruct (core_fields w0 w Hc) as (_ & Hstack & Hbase & _).
  rewrite popStyle_run. eexists _, _. split; [reflexivity|].
  rewrite popStyle_state. cbv zeta.
  assert (Hprev : currentStyle (set_styleStack (removelast (styleStack w)) w)
                  = currentStyle w1).
  { unfold currentStyle, w1. cbn. rewrite Hstack, Hbase. reflexivity. }
  rewrite Hprev.
  split.
  { unfold sameCore, core in *. cbn. injection Hc as E1 E2 E3 E4 E5 E6 E7 E8.
    congruence. }
  split; [reflexivity|]. exists []. rewrite app_nil_r. auto.
Qed.

Lemma emits_withStyle patch (fn : TextStyle -> W unit) (w0 : Writer) f f1 s :
  (let merged := mergeStyle (currentStyle w0) patch in
   let w1 := set_styleStack (styleStack w0 ++ [merged]) w0 in
   forall st, emits w1 (fillColor merged) (fn st) s w1 f1) ->
  emits w0 f (withStyle patch fn) s w0 (fillColor (currentStyle w0)).
Proof.
  cbv zeta. intros Hfn. unfold withStyle.
  eapply emits_eq.
  - eapply emits_bind; [apply emits_pushStyle|]. intros st.
    eapply emits_bind; [apply Hfn|]. intros _.
    eapply emits_bind; [apply emits_popStyle|]. intros _.
    apply emits_ret.
  - cbn [app]. rewrite app_nil_r. reflexivity.
  - unfold core. cbn. rewrite removelast_snoc. reflexivity.
  - unfold currentStyle. cbn. rewrite removelast_snoc. reflexivity.
Qed.

Lemma emits_text_plain str patch options (w0 : Writer) f x :
  patchKeys patch = 0 ->
  x = ShownText f str (lineGap (currentStyle w0)) (eraseIndent options) ->
  emits w0 f (text str patch options) [x] w0 f.
Proof.
  intros Hkeys ->. unfold text. rewrite Hkeys. apply emits_textImpl.
Qed.

Lemma emits_text_styled str patch options (w0 : Writer) f x :
  (0 <? patchKeys patch)%nat = true ->
  x = ShownText (fillColor (mergeStyle (currentStyle w0) patch)) str
        (lineGap (mergeStyle (currentStyle w0) patch)) (eraseIndent options) ->
  emits w0 f (text str patch options) [x] w0 (fillColor (currentStyle w0)).
Proof.
  intros Hkeys ->. unfold text. rewrite Hkeys.
  apply emits_withStyle with (f1 := fillColor (mergeStyle (currentStyle w0) patch)).
  cbv zeta. intros _.
  eapply emits_eq; [apply emits_textImpl| |reflexivity|reflexivity].
  rewrite (currentStyle_snoc w0
             (set_styleStack
                (styleStack w0 ++ [mergeStyle (currentStyle w0) patch]) w0)
             (mergeStyle (currentStyle w0) patch) eq_refl).
  reflexivity.
Qed.

(** A run of [m] from [w] itself. *)
Lemma emits_run {A : Type} (m : W A) (w w1 : Writer) f1 s :
  emits w (doc_fillColor (doc w)) m s w1 f1 ->
  exists a ops,
    outcome (m w) = Ok a /\
    sameCore w1 (state (m w)) /\
    doc_fillColor (doc (state (m w))) = f1 /\
    doc_ops (doc (state (m w))) = (doc_ops (doc w) ++ ops)%list /\
    map shownOf ops = s.
Proof.
  intros Hm. destruct (Hm w) as (a & w' & Hrun & Hc & Hf & ops & Ho & Hs);
    [reflexivity|reflexivity|].
  rewrite Hrun. exists a, ops. auto.
Qed.

Lemma currentStyle_pushed (st : list TextStyle) (m : TextStyle) (w : Writer) :
  currentStyle (set_styleStack (st ++ [m]) w) = m.
Proof. unfold currentStyle. cbn. rewrite last_snoc. reflexivity. Qed.

Lemma core_style_of (w0 w : Writer) :
  sameCore w0 w ->
  style w = style w0 /\ headerGap w = headerGap w0 /\ paraGap w = paraGap w0.
Proof.
  intros Hc. destruct (core_fields w0 w Hc) as (E1 & _ & _ & _ & E5 & E6).
  auto.
Qed.

Ltac emits_text :=
  first
    [ eapply emits_text_plain;
      [ reflexivity
      | unfold eraseIndent;
        cbn [noOptions continuedOpt alignOpt opt_x opt_y continued
             destination goTo underline indent align]; reflexivity ]
    | eapply emits_text_styled;
      [ reflexivity
      | unfold eraseIndent;
        cbn [noOptions continuedOpt alignOpt opt_x opt_y continued
             destination goTo underline indent align]; reflexivity ] ].

Ltac emits_step :=
  lazymatch goal with
  | |- emits _ _ (bind get _) _ _ _ =>
      apply emits_get;
      let v := fresh "v" in
      let Hv := fresh "Hv" in
      let E1 := fresh "E" in
      let E2 := fresh "E" in
      let E3 := fresh "E" in
      intros v Hv; cbv zeta;
      destruct (core_style_of _ _ Hv) as (E1 & E2 & E3);
      cbn [style headerGap paraGap set_styleStack] in E1, E2, E3;
      rewrite ?E1, ?E2, ?E3
  | |- emits _ _ (bind _ _) _ _ _ => eapply emits_bind; [ | intros ? ]
  | |- emits _ _ (ret _) _ _ _ => apply emits_ret
  | |- emits _ _ (withStyle _ _) _ _ _ =>
      eapply emits_withStyle; cbv zeta; intros ?
  | |- emits _ _ (text _ _ _) _ _ _ => emits_text
  | |- emits _ _ (lineBreak _) _ _ _ => apply emits_lineBreak
  | |- emits _ _ doc_moveUp _ _ _ => apply emits_doc_moveUp
  | |- emits _ _ (doc_rect _ _ _ _ _) _ _ _ => apply emits_doc_rect
  | |- emits _ _ (when _ _) _ _ _ => eapply emits_when
  | |- emits _ _ (modifyDoc _) _ _ _ =>
      apply emits_quiet; intros ?; repeat split; reflexivity
  end.

Ltac emits_done := cbn [app]; rewrite ?currentStyle_pushed; reflexivity.

Ltac emits_derive :=
  eapply emits_eq; [ repeat emits_step | emits_done | reflexivity | emits_done ].

Lemma emits_draws (m : W unit) (w : Writer) f1 s :
  emits w (doc_fillColor (doc w)) m s w f1 ->
  outcome (m w) = Ok tt /\ draws w (m w) s.
Proof.
  intros Hm. destruct (emits_run m w w f1 s Hm)
    as ([] & ops & Hout & Hc & _ & Ho & Hs).
  split; [exact Hout|]. split.
  - destruct (core_fields _ _ Hc) as (_ & E & _). exact E.
  - exists ops. auto.
Qed.

#[local] Abbreviation InkKept := (@inkKept num).

#[local] Instance inkKept_preorder : PreOrder InkKept.
Proof.
  split.
  - intros w. split; reflexivity.
  - intros w1 w2 w3 [A1 A2] [B1 B2]. split; congruence.
Qed.

Lemma inkKept_addOutline level str : keeps InkKept (addOutline level str).
Proof.
  unfold addOutline.
  repeat first
    [ keeps_step
    | match goal with
      | |- keeps _ (outline_addItem _ _) => intros ?; split; reflexivity
      | |- keeps _ (modify _) =>
          apply keeps_modify; intros ?; split; reflexivity
      end ].
Qed.

(** A heading draws, and then files its bookmark. *)
Lemma heading_draws (m : W unit) level title (w : Writer) f1 s :
  emits w (doc_fillColor (doc w)) m s w f1 ->
  draws w (bind m (fun _ => addOutline level title) w) s.
Proof.
  intros Hm.
  destruct (Hm w) as ([] & w1 & Hrun & Hc & _ & ops & Ho & Hs);
    [reflexivity|reflexivity|].
  unfold bind. rewrite Hrun.
  destruct (inkKept_addOutline level title w1) as [K1 K2].
  destruct (core_fields _ _ Hc) as (_ & E & _).
  split; [congruence|]. exists ops. split; [congruence|exact Hs].
Qed.

(** X6: on a writer within the caller's contract, [header] draws the
    heading text, with the colour of headers set and with the anchor as
    its destination, and restores the style stack, whatever the level
    (short of one so large that the font size is no number for PDFKit):
    the text is drawn before the level is checked, so also when the call
    then throws the nesting error. *)
Theorem header_draws_before_it_checks (level : Z) (str : string)
    (anchor : option string) (w : Writer)
    (Hready : ready w) (Hlevel : (Z.abs level < 10 ^ 20)%Z) :
  draws w (header level str anchor w)
    [ShownText (headers (style_color (style w))) str
       (lineGap (currentStyle w))
       {| opt_x := None; opt_y := None; continued := None;
          destination := anchor; goTo := None; underline := None;
          indent := None; align := None |}].
Proof.
  unfold header. unfold bind at 1. unfold get at 1. cbv iota beta.
  match goal with
  | |- draws _ (bind ?m _ _) _ =>
      eapply (heading_draws m) with (f1 := fillColor (currentStyle w))
  end.
  emits_derive.
Qed.

Lemma bannerColor_code (colors : ColorStyle) (method : string) :
  match colorByMethod colors (toLowerCase method) with
  | Some c => Some c
  | None => otherMethods colors
  end = bannerColor colors method.
Proof.
  unfold bannerColor, colorByMethod, methodColors. cbn [find fst].
  repeat match goal with
         | |- context [String.eqb ?a ?b] => destruct (String.eqb a b)
         end;
    reflexivity.
Qed.

(** X7: on a writer within the caller's contract, and for a method whose
    name in lower case is not a property that every object inherits,
    [apiHeader] draws, in this order: the method and a space with the
    colour of the current style set, which takes the page break if one is
    due; a rectangle in the colour the table has for the method
    ([bannerColor]: the colour configured for [get], [put], [post],
    [patch] or [delete], whatever the case of the letters, and the colour
    of the other methods for any other method and for a method whose
    colour is not configured); the method again, in white; the endpoint
    after two spaces, in the colour of headers. It restores the style
    stack, and it does so whatever the level. *)
Theorem apiHeader_draws_banner (method endpoint : string) (level : Z)
    (w : Writer) (Hready : ready w)
    (Hkey : inheritedKey (toLowerCase method) = false) :
  draws w (apiHeader method endpoint level w)
    [ShownText (fillColor (currentStyle w)) method
       (lineGap (currentStyle w)) (continuedOpt true);
     ShownText (fillColor (currentStyle w)) " "
       (lineGap (currentStyle w)) noOptions;
     ShownRect (bannerColor (style_color (style w)) method);
     ShownText (Some "white") method (lineGap (currentStyle w))
       (continuedOpt true);
     ShownText (headers (style_color (style w))) ("  " ++ endpoint)
       (lineGap (currentStyle w)) noOptions].
Proof.
  rewrite <- bannerColor_code.
  unfold apiHeader. unfold bind at 1. unfold get at 1. cbv iota beta zeta.
  match goal with
  | |- draws _ (bind ?m _ _) _ =>
      eapply (heading_draws m) with (f1 := fillColor (currentStyle w))
  end.
  emits_derive.
Qed.



Lemma emits_para str (w0 : Writer) f :
  emits w0 f (para str)
    [ShownText f str (lineGap (currentStyle w0)) noOptions] w0 f.
Proof. unfold para. emits_derive. Qed.




Lemma emits_schemaType typeName contentType (w0 : Writer) f :
  emits w0 f (schemaType typeName contentType)
    ((if truthy contentType
      then [ShownText f "Content: " (lineGap (currentStyle w0))
              (continuedOpt true);
            ShownText (highlight (style_color (style w0)))
              (default "" contentType) (lineGap (currentStyle w0))
              (continuedOpt true);
            ShownText (fillColor (currentStyle w0)) " | "
              (lineGap (currentStyle w0)) (continuedOpt true)]
      else []) ++
     [ShownText (if truthy contentType then fillColor (currentStyle w0) else f)
        "Type: " (lineGap (currentStyle w0)) (continuedOpt true);
      ShownText (highlight (style_color (style w0))) typeName
        (lineGap (currentStyle w0)) noOptions])
    w0 (fillColor (currentStyle w0)).
Proof.
  unfold schemaType.
  eapply emits_eq; [repeat emits_step| |reflexivity|reflexivity].
  destruct (truthy contentType); emits_done.
Qed.

(** X10: on a writer within the caller's contract, [schemaType]
    returns, restores the style stack and draws one line: when a content
    type is given, [Content: ], the content type with the highlight colour
    set and a bar; then [Type: ] and the type name with the highlight
    colour, every piece but the last one continued. An empty content type
    counts as none. The label that comes first is drawn with the fill
    colour the document tracks at that moment, the labels after a
    highlighted piece with the colour of the current style. *)
Theorem schemaType_draws_one_line (typeName : string)
    (contentType : option string) (w : Writer) (Hready : ready w) :
  let gap := lineGap (currentStyle w) in
  let lit_ := highlight (style_color (style w)) in
  outcome (schemaType typeName contentType w) = Ok tt /\
  draws w (schemaType typeName contentType w)
    ((if truthy contentType
      then [ShownText (doc_fillColor (doc w)) "Content: " gap
              (continuedOpt true);
            ShownText lit_ (default "" contentType) gap (continuedOpt true);
            ShownText (fillColor (currentStyle w)) " | " gap
              (continuedOpt true)]
      else []) ++
     [ShownText (if truthy contentType then fillColor (currentStyle w)
                 else doc_fillColor (doc w))
        "Type: " gap (continuedOpt true);
      ShownText lit_ typeName gap noOptions]).
Proof. cbv zeta. eapply emits_draws, emits_schemaType. Qed.

(** *** Schemas *)










(** *** The title page *)

Lemma emits_after_addPage {A : Type} (k : Page -> W A) (w0 w1 : Writer)
    f f1 s :
  (forall page, emits w0 f (k page) s w1 f1) ->
  emits w0 f (bind doc_addPage (fun _ => bind doc_currentPage k)) s w1 f1.
Proof.
  intros Hk w Hc Hf.
  set (w' := state (doc_addPage w)).
  set (page := {| height := pageHeight; margins := doc_margins (doc w) |}).
  assert (Hpage : doc_currentPage w' = (w', Ok page)).
  { apply currentPage_run. unfold w'. cbn.
    apply list_lookup_middle. reflexivity. }
  unfold bind at 1.
  change (doc_addPage w) with (w', @Ok unit tt). cbv iota beta.
  unfold bind at 1. rewrite Hpage.
  apply (Hk page w'); [|exact Hf].
  unfold sameCore in *. rewrite <- Hc. reflexivity.
Qed.

Lemma emits_addTitlePage title subtitle date (w0 : Writer) f :
  emits w0 f (addTitlePage title subtitle date)
    ([ShownText (fillColor (currentStyle w0)) title
        (lineGap (currentStyle w0)) (alignOpt "center")] ++
     (if truthy subtitle
      then [ShownText (fillColor (currentStyle w0)) (default "" subtitle)
              (lineGap (currentStyle w0)) (alignOpt "center")]
      else []) ++
     (if truthy date
      then [ShownText (secondary (style_color (style w0))) (default "" date)
              (lineGap (currentStyle w0)) (alignOpt "center")]
      else []))
    w0 (fillColor (currentStyle w0)).
Proof.
  unfold addTitlePage.
  eapply emits_eq;
    [apply emits_after_addPage; intros page; repeat emits_step| |reflexivity|].
  - destruct (truthy subtitle), (truthy date); emits_done.
  - destruct (truthy subtitle), (truthy date); reflexivity.
Qed.

(** X13: [addTitlePage] returns on every writer, one with no page yet
    included, as it opens a page before it reads the page height. It
    restores the style stack and draws, centred: the title; the subtitle,
    unless it is missing or empty; the date, unless it is missing or
    empty, in the secondary colour. *)
Theorem addTitlePage_draws_title (title : string)
    (subtitle date : option string) (w : Writer) :
  let cur := currentStyle w in
  outcome (addTitlePage title subtitle date w) = Ok tt /\
  draws w (addTitlePage title subtitle date w)
    ([ShownText (fillColor cur) title (lineGap cur) (alignOpt "center")] ++
     (if truthy subtitle
      then [ShownText (fillColor cur) (default "" subtitle) (lineGap cur)
              (alignOpt "center")]
      else []) ++
     (if truthy date
      then [ShownText (secondary (style_color (style w))) (default "" date)
              (lineGap cur) (alignOpt "center")]
      else [])).
Proof. cbv zeta. eapply emits_draws, emits_addTitlePage. Qed.

Lemma addOutline_unfit level str (w : Writer) :
  ~ (0 <= level <= Z.of_nat (length (docOutlines w)))%Z ->
  addOutline level str w =
  (w, Throw (nestingMessage level (length (docOutlines w)))).
Proof.
  intros Hlevel.
  destruct (Z.lt_ge_cases level 0) as [Hneg|Hpos].
  - unfold addOutline. unfold bind at 1. unfold get at 1.
    cbv iota beta zeta.
    assert (E0 : (level =? 0)%Z = false) by lia.
    assert (E1 : (0 <? level)%Z = false) by lia.
    rewrite E0, E1. reflexivity.
  - apply addOutline_skipped. lia.
Qed.

(** *** Which calls return *)

(** X14: on a writer within the caller's contract, [finish] returns
    whatever the renderer does with the stamps, page breaks while stamping
    included: it never switches to a page that does not exist and never
    reads a missing page. It leaves the document ended and loses no
    page. *)
Theorem finish_always_ends_the_document (w : Writer) (Hready : ready w) :
  outcome (finish w) = Ok tt /\
  doc_ended (doc (state (finish w))) = true /\
  length (doc_pages (doc w)) <= length (doc_pages (doc (state (finish w)))).
Proof.
  destruct (wp_run finish _ w (finish_safe w)) as ([] & Hout & Hend & Hlen).
  auto.
Qed.


(** *** Sections and indentation *)

(** X16: on a writer within the caller's contract, [newSection] returns
    and starts the section clean: whatever styles were still pushed are
    discarded, the base style is the current one and the document is set
    to its font, size and colour; then one page is opened, with the
    margins of the document, and becomes the current page; nothing is
    drawn. A paragraph that follows is therefore issued with the line gap
    of the base style, the fill colour the document tracks being that of
    the base style, whatever was pushed before the section. *)
Theorem newSection_starts_clean (name : string) (w : Writer)
    (Hready : ready w) :
  let w' := state (newSection name w) in
  outcome (newSection name w) = Ok tt /\
  styleStack w' = [] /\
  currentStyle w' = baseStyle w /\
  doc_font (doc w') = fonts !! EFont_index (default NORM (font (baseStyle w))) /\
  doc_fontSize (doc w') = fontSize (baseStyle w) /\
  doc_fillColor (doc w') = fillColor (currentStyle w') /\
  doc_pages (doc w') =
    (doc_pages (doc w) ++
     [{| height := pageHeight; margins := doc_margins (doc w) |}])%list /\
  doc_page (doc w') = length (doc_pages (doc w)) /\
  doc_ops (doc w') = doc_ops (doc w) /\
  (forall str,
     draws w' (para str w')
       [ShownText (fillColor (baseStyle w)) str (lineGap (baseStyle w))
          noOptions]).
Proof.
  cbv zeta. do 9 (split; [reflexivity|]). intros str.
  destruct (emits_draws _ (state (newSection name w)) _ _
              (emits_para str (state (newSection name w)) _)) as [_ Hdraws].
  exact Hdraws.
Qed.

Lemma indentStart_stack (w : Writer) :
  let w' := state (indentStart w) in
  styleStack w' =
    (styleStack w ++
     [mergeStyle (currentStyle w)
        {| pFont := None; pFontSize := None; pFillColor := None;
           pLeftMargin := Some (indentStep (style_format (style w)));
           pLineGap := None |}])%list /\
  style w' = style w /\
  doc_x (doc w') = leftMargin (currentStyle w').
Proof.
  cbv zeta. split; [reflexivity|]. split; [reflexivity|].
  erewrite currentStyle_snoc; reflexivity.
Qed.

Lemma indentStarts_stack n (w : Writer) :
  exists pushed,
    styleStack (performAll (replicate n IndentStart) w) =
      (styleStack w ++ pushed)%list /\
    length pushed = n.
Proof.
  revert w. induction n as [|n IH]; intros w.
  - exists []. rewrite app_nil_r. auto.
  - cbn [replicate]. rewrite performAll_cons. cbn [perform].
    destruct (IH (state (indentStart w))) as (pushed & -> & Hlen).
    destruct (indentStart_stack w) as (-> & _).
    eexists (_ :: pushed). rewrite <- app_assoc. split; [reflexivity|].
    simpl. lia.
Qed.

Lemma indentStarts_margin n (w : Writer) :
  leftMargin (currentStyle (performAll (replicate n IndentStart) w)) =
  Nat.iter n
    (fun x => Some (nadd (default (lit 0) x)
                      (default (lit 0) (indentStep (style_format (style w))))))
    (leftMargin (currentStyle w)).
Proof.
  revert w. induction n as [|n IH]; intros w.
  - reflexivity.
  - cbn [replicate]. rewrite performAll_cons. cbn [perform].
    rewrite IH, Nat.iter_succ_r.
    destruct (indentStart_stack w) as (Hstack & -> & _).
    erewrite (currentStyle_snoc w (state (indentStart w))); [|exact Hstack].
    reflexivity.
Qed.

Lemma indentEnds_stack m (w : Writer) :
  styleStack (performAll (replicate m IndentEnd) w) =
  take (length (styleStack w) - m) (styleStack w).
Proof.
  revert w. induction m as [|m IH]; intros w.
  - cbn. rewrite Nat.sub_0_r, take_ge; [reflexivity|lia].
  - cbn [replicate]. rewrite performAll_cons. cbn [perform].
    rewrite IH.
    change (styleStack (state (indentEnd w)))
      with (removelast (styleStack w)).
    rewrite removelast_firstn_len, take_take, length_take.
    f_equal. lia.
Qed.

(** X17: on a live document, indentation nests. After [n] calls of
    [indentStart] the stack
    holds [n] more styles and the left margin of the current style is the
    one before with the indent step added [n] times, an undefined margin
    or step counting as 0. [m] calls of [indentEnd] then drop the last [m]
    styles of the stack, or all of them when it holds fewer: as many
    [indentEnd] as [indentStart] restore the stack, and [indentEnd] on an
    empty stack leaves it empty. *)
Theorem indentation_nests (n m : nat) (w : Writer) (Hlive : live w) :
  let step := default (lit 0) (indentStep (style_format (style w))) in
  let w1 := performAll (replicate n IndentStart) w in
  let w2 := performAll (replicate m IndentEnd) w1 in
  (exists pushed,
     styleStack w1 = (styleStack w ++ pushed)%list /\ length pushed = n) /\
  leftMargin (currentStyle w1) =
    Nat.iter n (fun x => Some (nadd (default (lit 0) x) step))
      (leftMargin (currentStyle w)) /\
  styleStack w2 = take (length (styleStack w) + n - m) (styleStack w1) /\
  styleStack (performAll (replicate n IndentEnd) w1) = styleStack w.
Proof.
  cbv zeta. split; [apply indentStarts_stack|].
  split; [apply indentStarts_margin|].
  rewrite !indentEnds_stack.
  destruct (indentStarts_stack n w) as (pushed & -> & Hlen).
  rewrite length_app, Hlen. split; [reflexivity|].
  replace (length (styleStack w) + n - n) with (length (styleStack w)) by lia.
  rewrite take_app_length. reflexivity.
Qed.

(** *** The outline, further *)

#[local] Abbreviation OutlineKept := (@outlineKept num).

#[local] Instance outlineKept_preorder : PreOrder OutlineKept.
Proof.
  split.
  - intros w. split; reflexivity.
  - intros w1 w2 w3 [A1 A2] [B1 B2]. split; congruence.
Qed.

Lemma outlineKept_typed c (w : Writer) : outlineKept w (typed c w).
Proof. apply core_outline. exact (core_typed c w). Qed.

Ltac outlineKept_frame :=
  first [ typeclasses eauto
        | apply outlineKept_typed
        | solve [intros; split; reflexivity]
        | solve [intros w d _ Hd; split; [reflexivity|exact Hd]]
        | idtac ].

Lemma outlineKept_block (c : Call) :
  heading c = None -> keeps OutlineKept (perform c).
Proof.
  intros Hc.
  destruct (match c with NewSection _ => true | _ => false end) eqn:Hnew.
  - destruct c; try discriminate Hnew. cbn [perform].
    apply frame_newSection; outlineKept_frame.
  - apply frame_block; outlineKept_frame.
    + exact Hc.
    + intros name ->. discriminate Hnew.
Qed.

(** X1: [addOutline] returns exactly when the level is between 0 and the
    length of the outline path; for any other level, a negative one
    included, it throws the nesting error and leaves the writer as it
    was. *)
Theorem addOutline_returns_iff_level_fits (level : Z) (str : string)
    (w : Writer) :
  (outcome (addOutline level str w) = Ok tt <->
   (0 <= level <= Z.of_nat (length (docOutlines w)))%Z) /\
  (outcome (addOutline level str w) <> Ok tt ->
   addOutline level str w =
   (w, Throw (nestingMessage level (length (docOutlines w))))).
Proof.
  destruct (Z_le_dec 0 level) as [H0|H0];
    [destruct (Z_le_dec level (Z.of_nat (length (docOutlines w)))) as [H1|H1]|].
  - destruct (addOutline_fits level str w) as (w' & Hrun & _); [lia|].
    rewrite Hrun. cbn [outcome snd].
    split; [split; [lia|reflexivity]|]. intros Hne. contradiction.
  - rewrite addOutline_unfit by lia. cbn [outcome snd].
    split; [split; [discriminate|lia]|reflexivity].
  - rewrite addOutline_unfit by lia. cbn [outcome snd].
    split; [split; [discriminate|lia]|reflexivity].
Qed.

(** X2: on a writer within the caller's contract, a heading whose level
    fits returns and adds exactly one item to the outline:
    its title is the text of [header], and [method endpoint] for
    [apiHeader]; it hangs under the root at level 0 and otherwise under the
    item the path holds one level up; and the path holds it, last, at its
    level. *)
Theorem heading_adds_one_bookmark (level : Z) (str : string)
    (anchor : option string) (method endpoint : string) (w : Writer)
    (Hready : ready w)
    (Hlevel : (0 <= level <= Z.of_nat (length (docOutlines w)))%Z) :
  let parent := if (level =? 0)%Z then None
                else docOutlines w !! Z.to_nat (level - 1) in
  let path := (take (Z.to_nat level) (docOutlines w) ++
               [length (doc_outline (doc w))])%list in
  (outcome (header level str anchor w) = Ok tt /\
   doc_outline (doc (state (header level str anchor w))) =
     (doc_outline (doc w) ++
      [{| item_parent := parent; item_title := str |}])%list /\
   docOutlines (state (header level str anchor w)) = path) /\
  (outcome (apiHeader method endpoint level w) = Ok tt /\
   doc_outline (doc (state (apiHeader method endpoint level w))) =
     (doc_outline (doc w) ++
      [{| item_parent := parent;
          item_title := method ++ " " ++ endpoint |}])%list /\
   docOutlines (state (apiHeader method endpoint level w)) = path).
Proof.
  cbv zeta. split.
  - destruct (header_run level str anchor w) as (w1 & -> & Hcore).
    apply core_outline in Hcore as [Hp Hi].
    destruct (addOutline_fits level str w1) as (w' & -> & Hpath & Hitems);
      [rewrite Hp; exact Hlevel|].
    cbn [outcome state fst snd]. rewrite Hitems, Hpath, Hp, Hi.
    rewrite pathStep_take by exact Hlevel. auto.
  - destruct (apiHeader_run method endpoint level w) as (w1 & -> & Hcore).
    apply core_outline in Hcore as [Hp Hi].
    destruct (addOutline_fits level (method ++ " " ++ endpoint) w1)
      as (w' & -> & Hpath & Hitems); [rewrite Hp; exact Hlevel|].
    cbn [outcome state fst snd]. rewrite Hitems, Hpath, Hp, Hi.
    rewrite pathStep_take by exact Hlevel. auto.
Qed.

Lemma heading_appends (c : Call) level (w : Writer) :
  heading c = Some level ->
  exists added,
    doc_outline (doc (state (perform c w))) =
      (doc_outline (doc w) ++ added)%list /\
    length added <= 1.
Proof.
  intros Hc.
  destruct (perform_heading c level w Hc) as (w1 & str & -> & Hcore).
  apply core_outline in Hcore as [Hp Hi].
  destruct (Z_le_dec 0 level) as [H0|H0];
    [destruct (Z_le_dec level (Z.of_nat (length (docOutlines w1)))) as [H1|H1]|].
  - destruct (addOutline_fits level str w1) as (w' & -> & _ & Hitems); [lia|].
    cbn [state fst]. rewrite Hitems, Hi. eexists. split; [reflexivity|].
    simpl. lia.
  - rewrite addOutline_unfit by lia. cbn [state fst]. rewrite Hi.
    exists []. rewrite app_nil_r. simpl. split; [reflexivity|lia].
  - rewrite addOutline_unfit by lia. cbn [state fst]. rewrite Hi.
    exists []. rewrite app_nil_r. simpl. split; [reflexivity|lia].
Qed.

(** X3: only [header] and [apiHeader] change the outline, and they only add
    to it, one item at most. Every other call leaves the outline path and
    the outline items as they were, whether it returns or throws: a new
    section, in particular, does not reset the outline path. *)
Theorem only_headings_change_outline (c : Call) (w : Writer) :
  match heading c with
  | None =>
      docOutlines (state (perform c w)) = docOutlines w /\
      doc_outline (doc (state (perform c w))) = doc_outline (doc w)
  | Some _ =>
      exists added,
        doc_outline (doc (state (perform c w))) =
          (doc_outline (doc w) ++ added)%list /\
        length added <= 1
  end.
Proof.
  destruct (heading c) as [level|] eqn:Hc.
  - exact (heading_appends c level w Hc).
  - exact (outlineKept_block c Hc w).
Qed.

(** *** Pages and section names *)

#[local] Abbreviation Spills := (@spills num).

#[local] Instance spills_preorder : PreOrder Spills.
Proof.
  split.
  - intros w. split; [reflexivity|]. exists 0. simpl. rewrite app_nil_r.
    reflexivity.
  - intros w1 w2 w3 [A1 (k1 & A2)] [B1 (k2 & B2)].
    split; [congruence|]. exists (k1 + k2).
    rewrite B2, A2, A1, <- app_assoc, replicate_add. reflexivity.
Qed.

Lemma spills_same (w w' : Writer) :
  currentSectionName w' = currentSectionName w ->
  pageHeaderNodes w' = pageHeaderNodes w ->
  spills w w'.
Proof.
  intros H1 H2. split; [exact H1|]. exists 0. simpl. rewrite app_nil_r.
  exact H2.
Qed.

Lemma spills_newPage (w : Writer) : spills w (newPage w).
Proof. split; [reflexivity|]. exists 1. reflexivity. Qed.

Lemma spills_newPages k (w : Writer) : spills w (newPages k w).
Proof.
  revert w. induction k as [|k IH]; intros w; cbn [newPages].
  - reflexivity.
  - transitivity (newPage w); [apply spills_newPage|apply IH].
Qed.

Lemma spills_typed c (w : Writer) : spills w (typed c w).
Proof.
  unfold typed. cbv zeta.
  set (w1 := set_doc _ w).
  transitivity w1; [apply spills_same; reflexivity|].
  transitivity (newPages (snd (textLayout (doc w) c)) w1);
    [apply spills_newPages|apply spills_same; reflexivity].
Qed.

Lemma spills_addPage (w : Writer) : spills w (state (doc_addPage w)).
Proof.
  transitivity (newPage w);
    [apply spills_newPage|apply spills_same; reflexivity].
Qed.

Ltac spills_frame :=
  first [ typeclasses eauto
        | apply spills_typed
        | apply spills_addPage
        | solve [intros; apply spills_same; reflexivity]
        | solve [unfold keeps; intros; apply spills_same; reflexivity]
        | idtac ].

Lemma spills_perform (c : Call) :
  (forall name, c <> NewSection name) -> keeps Spills (perform c).
Proof.
  intros Hn.
  destruct (heading c) as [level|] eqn:Hc.
  - apply (frame_heading Spills) with (level := level); spills_frame.
    exact Hc.
  - apply frame_block; spills_frame.
    + exact Hc.
    + exact Hn.
Qed.

(** X4: every page that a call opens, a page break inside its text
    included, is recorded under the section name in force when the call
    was made, and the call leaves that name in force, whether it returns
    or throws; the one exception is [newSection], which on a live
    document records the one page it opens under the new name. *)
Theorem pages_carry_the_section_name (c : Call) (w : Writer) :
  match c with
  | NewSection name =>
      live w ->
      currentSectionName (state (perform c w)) = name /\
      pageHeaderNodes (state (perform c w)) =
        (pageHeaderNodes w ++ [name])%list
  | _ =>
      currentSectionName (state (perform c w)) = currentSectionName w /\
      exists k,
        pageHeaderNodes (state (perform c w)) =
          (pageHeaderNodes w ++ replicate k (currentSectionName w))%list
  end.
Proof.
  destruct c;
    try (apply spills_perform; intros name' E; discriminate E).
  intros _. split; reflexivity.
Qed.

Lemma spills_performAll (calls : list Call) (w : Writer) :
  forallb (fun c => negb (opensSection c)) calls = true ->
  spills w (performAll calls w).
Proof.
  revert w. induction calls as [|c calls IH]; intros w Hcalls.
  - reflexivity.
  - cbn [forallb] in Hcalls. apply andb_prop in Hcalls as [Hc Hrest].
    rewrite performAll_cons.
    transitivity (state (perform c w)); [|apply IH, Hrest].
    apply spills_perform. intros name ->. discriminate Hc.
Qed.

(** X21: through any sequence of calls with no [newSection] in it the
    section name stays in force, and every page the calls open, however
    many, is recorded under it: the pages of a section all carry its
    name. *)
Theorem section_pages_share_the_name (calls : list Call) (w : Writer)
    (Hcalls : forallb (fun c => negb (opensSection c)) calls = true) :
  currentSectionName (performAll calls w) = currentSectionName w /\
  exists k,
    pageHeaderNodes (performAll calls w) =
      (pageHeaderNodes w ++ replicate k (currentSectionName w))%list.
Proof. exact (spills_performAll calls w Hcalls). Qed.

(** *** The configuration *)

#[local] Abbreviation SameConfig := (@sameConfig num).

#[local] Instance sameConfig_preorder : PreOrder SameConfig.
Proof.
  split.
  - intros w. repeat split; reflexivity.
  - intros w1 w2 w3 (A1 & A2 & A3 & A4) (B1 & B2 & B3 & B4).
    repeat split; congruence.
Qed.

Lemma sameConfig_newPages k (w : Writer) : sameConfig w (newPages k w).
Proof.
  revert w. induction k as [|k IH]; intros w; cbn [newPages].
  - reflexivity.
  - transitivity (newPage w); [repeat split; reflexivity|apply IH].
Qed.

Lemma sameConfig_typed c (w : Writer) : sameConfig w (typed c w).
Proof.
  unfold typed. cbv zeta.
  set (w1 := set_doc _ w).
  transitivity w1; [repeat split; reflexivity|].
  transitivity (newPages (snd (textLayout (doc w) c)) w1);
    [apply sameConfig_newPages|repeat split; reflexivity].
Qed.

Ltac sameConfig_frame :=
  first [ typeclasses eauto
        | apply sameConfig_typed
        | solve [intros; repeat split; reflexivity]
        | solve [unfold keeps; intros; repeat split; reflexivity]
        | idtac ].

Lemma sameConfig_perform (c : Call) : keeps SameConfig (perform c).
Proof.
  destruct (heading c) as [level|] eqn:Hc.
  - apply (frame_heading SameConfig) with (level := level); sameConfig_frame.
    exact Hc.
  - destruct (match c with NewSection _ => true | _ => false end) eqn:Hnew.
    + destruct c; try discriminate Hnew. cbn [perform].
      apply frame_newSection; sameConfig_frame.
    + apply frame_block; sameConfig_frame.
      * exact Hc.
      * intros name ->. discriminate Hnew.
Qed.

Lemma sameConfig_performAll (calls : list Call) (w : Writer) :
  sameConfig w (performAll calls w).
Proof.
  revert w. induction calls as [|c calls IH]; intros w.
  - reflexivity.
  - rewrite performAll_cons.
    transitivity (state (perform c w)); [apply sameConfig_perform|apply IH].
Qed.

(** X5: no call changes the configuration: after any sequence of calls the
    style is the external one given to the constructor, or the defaults
    when none was given, and the base style, the style in force when
    nothing is pushed, is the one built from the defaults (Helvetica at
    size 10, colour #333333, left margin 70) whatever the external style
    says. *)
Theorem configuration_is_never_changed (outputFilePath : option string)
    (extStyle : option ApiStyle) (calls : list Call) :
  let w := performAll calls (constructor outputFilePath extStyle) in
  style w = default defaultStyle extStyle /\
  baseStyle w = defaultBaseStyle /\
  headerGap w = lit 0.7 /\
  paraGap w = lit 0.5.
Proof.
  cbv zeta.
  destruct (sameConfig_performAll calls (constructor outputFilePath extStyle))
    as (E1 & E2 & E3 & E4).
  rewrite E1, E2, E3, E4. destruct extStyle; repeat split; reflexivity.
Qed.

End Properties.

(** ** The older revision *)

Section LegacyProperties.
Context {num : Type} `{JsNumber num}.

(** X18: in the older revision too a push followed by a pop restores
    the stack and the current style; there the cursor is not touched at
    all. *)
Theorem legacy_push_pop_restores (patch : Legacy.StylePatch)
    (w : @Legacy.PdfWriter num) :
  let w' := state (Legacy.popStyle (state (Legacy.pushStyle patch w))) in
  Legacy.styleStack w' = Legacy.styleStack w /\
  Legacy.currentStyle w' = Legacy.currentStyle w /\
  doc_x (Legacy.doc w') = doc_x (Legacy.doc w) /\
  doc_y (Legacy.doc w') = doc_y (Legacy.doc w).
Proof.
  cbv zeta.
  assert (Hs : Legacy.styleStack
                 (state (Legacy.popStyle (state (Legacy.pushStyle patch w)))) =
               Legacy.styleStack w).
  { change (removelast (Legacy.styleStack w ++
                        [Legacy.mergeStyle (Legacy.currentStyle w) patch]) =
            Legacy.styleStack w).
    apply removelast_last. }
  split; [exact Hs|]. split; [|split; reflexivity].
  unfold Legacy.currentStyle at 1. rewrite Hs. reflexivity.
Qed.

(** X19: in the older revision too [withStyle] pops the style it pushed
    only when the block returns; when the block throws, the error goes
    through and the writer stays as the block left it, the style still
    pushed. *)
Theorem legacy_withStyle_run (patch : Legacy.StylePatch)
    (fn : Legacy.TextStyle -> M (@Legacy.PdfWriter num) unit)
    (w w2 : @Legacy.PdfWriter num) r :
  fn (Legacy.mergeStyle (Legacy.currentStyle w) patch)
     (state (Legacy.pushStyle patch w)) = (w2, r) ->
  Legacy.withStyle patch fn w =
  match r with
  | Ok _ => (state (Legacy.popStyle w2), Ok tt)
  | Throw e => (w2, Throw e)
  end.
Proof.
  intros Hfn. unfold Legacy.withStyle. unfold bind at 1.
  change (Legacy.pushStyle patch w)
    with (state (Legacy.pushStyle patch w),
          @Ok Legacy.TextStyle (Legacy.mergeStyle (Legacy.currentStyle w) patch)).
  cbv iota beta. unfold bind at 1. rewrite Hfn. destruct r; reflexivity.
Qed.

Lemma legacy_indentStart_stack (w : @Legacy.PdfWriter num) :
  Legacy.styleStack (state (Legacy.indentStart w)) =
  (Legacy.styleStack w ++
   [Legacy.mergeStyle (Legacy.currentStyle w)
      {| Legacy.pFont := None; Legacy.pFontSize := None;
         Legacy.pFillColor := None;
         Legacy.pIndent := Some (Some (lit 12));
         Legacy.pLineGap := None |}])%list.
Proof. reflexivity. Qed.

Lemma legacy_indentEnds_stack m (w : @Legacy.PdfWriter num) :
  Legacy.styleStack (Nat.iter m (fun v => state (Legacy.indentEnd v)) w) =
  take (length (Legacy.styleStack w) - m) (Legacy.styleStack w).
Proof.
  revert w. induction m as [|m IH]; intros w.
  - cbn. rewrite Nat.sub_0_r, take_ge; [reflexivity|lia].
  - rewrite Nat.iter_succ_r, IH.
    change (Legacy.styleStack (state (Legacy.indentEnd w)))
      with (removelast (Legacy.styleStack w)).
    rewrite removelast_firstn_len, take_take, length_take.
    f_equal. lia.
Qed.

Lemma legacy_indentStarts n (w : @Legacy.PdfWriter num) :
  let w1 := Nat.iter n (fun v => state (Legacy.indentStart v)) w in
  (exists pushed,
     Legacy.styleStack w1 = (Legacy.styleStack w ++ pushed)%list /\
     length pushed = n) /\
  Legacy.indent (Legacy.currentStyle w1) =
    Nat.iter n (fun x => Some (nadd (default (lit 0) x) (lit 12)))
      (Legacy.indent (Legacy.currentStyle w)) /\
  doc_x (Legacy.doc w1) = doc_x (Legacy.doc w) /\
  doc_y (Legacy.doc w1) = doc_y (Legacy.doc w).
Proof.
  cbv zeta. induction n as [|n IH].
  - split; [exists []; rewrite app_nil_r; auto|]. auto.
  - rewrite !Nat.iter_succ.
    destruct IH as ((pushed & Hstack & Hlen) & Hindent & Hx & Hy).
    set (w1 := Nat.iter n (fun v => state (Legacy.indentStart v)) w) in *.
    split; [|split; [|split]].
    + eexists (pushed ++ [_])%list.
      rewrite legacy_indentStart_stack, Hstack, <- app_assoc.
      split; [reflexivity|]. rewrite length_app. simpl. lia.
    + unfold Legacy.currentStyle at 1.
      rewrite legacy_indentStart_stack, last_snoc. cbn. rewrite Hindent.
      reflexivity.
    + rewrite <- Hx. reflexivity.
    + rewrite <- Hy. reflexivity.
Qed.

(** X20: in the older revision indentation nests by a fixed step: after
    [n] calls of [indentStart] the indent of the current style is the one
    before with 12 added [n] times, an undefined indent counting as 0; the
    cursor has not moved; and [n] calls of [indentEnd] then restore the
    stack. *)
Theorem legacy_indentation_is_fixed (n : nat) (w : @Legacy.PdfWriter num) :
  let w1 := Nat.iter n (fun v => state (Legacy.indentStart v)) w in
  let w2 := Nat.iter n (fun v => state (Legacy.indentEnd v)) w1 in
  Legacy.indent (Legacy.currentStyle w1) =
    Nat.iter n (fun x => Some (nadd (default (lit 0) x) (lit 12)))
      (Legacy.indent (Legacy.currentStyle w)) /\
  doc_x (Legacy.doc w1) = doc_x (Legacy.doc w) /\
  doc_y (Legacy.doc w1) = doc_y (Legacy.doc w) /\
  Legacy.styleStack w2 = Legacy.styleStack w.
Proof.
  cbv zeta.
  destruct (legacy_indentStarts n w)
    as ((pushed & Hstack & Hlen) & Hindent & Hx & Hy).
  split; [exact Hindent|]. split; [exact Hx|]. split; [exact Hy|].
  rewrite legacy_indentEnds_stack, Hstack, length_app, Hlen.
  replace (length (Legacy.styleStack w) + n - n)
    with (length (Legacy.styleStack w)) by lia.
  apply take_app_length.
Qed.

End LegacyProperties.

(** ** The properties on concrete documents *)

(** The documents below are within the caller's contract. *)

Ltac concrete_contract :=
  vm_compute;
  repeat first
    [ split
    | apply Forall_cons
    | apply Forall_nil
    | (eexists; split; [reflexivity | discriminate])
    | discriminate
    | lia
    | reflexivity ].

Lemma titledWriter_ready : ready titledWriter.
Proof. concrete_contract. Qed.

Lemma usersWriter_ready : ready usersWriter.
Proof. concrete_contract. Qed.

Lemma tightPages_ready : ready tightPages.
Proof. concrete_contract. Qed.


Lemma titledWriter_live : live titledWriter.
Proof. concrete_contract. Qed.

Example enumValues_ABC :
  map runOf
    (drop (length (doc_ops (doc titledWriter)))
       (doc_ops (doc (state (enumValues (R := plainRenderer) ["A"; "B"; "C"]
                               titledWriter))))) =
  [Some ("Values: ", None, None); Some ("A, ", Some true, Some (Num 82));
   Some ("B, ", Some true, None); Some ("C", Some false, None)].
Proof. vm_compute. reflexivity. Qed.

Example finish_threePages :
  map stampOf
    (drop (length (doc_ops (doc threePages)))
       (doc_ops (doc (state (finish (R := plainRenderer) threePages))))) =
  [Some (1, "Users", Some (Num 25), Some "right", zeroed);
   Some (1, "Page 1 / 2", Some (Num 767), Some "right", zeroed);
   Some (2, "Orders", Some (Num 25), Some "right", zeroed);
   Some (2, "Page 2 / 2", Some (Num 767), Some "right", zeroed)].
Proof. vm_compute. reflexivity. Qed.

(** With a renderer that breaks a page at every flowing text, each break
    records the section name of the moment. *)
Example registry_with_page_breaks :
  let w := performAll (R := breakingRenderer)
             [AddTitlePage "API Spec" (Some "v1") None;
              NewSection "Users"; Para "All about users."]
             freshWriter in
  pageHeaderNodes w = [""; ""; ""; "Users"; "Users"] /\
  pageNumber w = 5 /\ length (doc_pages (doc w)) = 5.
Proof. vm_compute. auto. Qed.

Example apiHeader_method_colours :
  let banner method :=
    omap (fun op => match op with
                    | DrawRect _ _ _ _ _ c => Some c
                    | DrawText _ _ _ _ => None
                    end)
      (doc_ops (doc (state (apiHeader (R := plainRenderer) method "/users" 0
                              titledWriter)))) in
  banner "GET" = [Some "#4A90E2"] /\ banner "TRACE" = [Some "#2A4D69"].
Proof. vm_compute. auto. Qed.

(** C1, the claim as stated, fails: on a writer with its title page,
    after the headings at levels 0, 1, 0, each at most the length of the
    path and each returning, the path has length 1, not the greatest
    level seen plus one. *)
Lemma outline_length_is_not_max_level_plus_one :
  ready titledWriter /\
  levelsFit (R := plainRenderer) threeHeadings titledWriter = true /\
  allReturn (R := plainRenderer) threeHeadings titledWriter /\
  maxLevel threeHeadings = 1%Z /\
  length (docOutlines
            (performAll (R := plainRenderer) threeHeadings titledWriter)) = 1 /\
  length (docOutlines
            (performAll (R := plainRenderer) threeHeadings titledWriter))
    <> Z.to_nat (maxLevel threeHeadings) + 1.
Proof.
  split; [exact titledWriter_ready|].
  split; [vm_compute; reflexivity|].
  split; [vm_compute; auto|].
  split; [reflexivity|].
  split; [vm_compute; reflexivity|].
  vm_compute. discriminate.
Qed.

Lemma outline_path_follows_headings_witness :
  ready titledWriter /\
  linked titledWriter /\
  levelsFit (R := plainRenderer) threeHeadings titledWriter = true /\
  allReturn (R := plainRenderer) threeHeadings titledWriter /\
  length (docOutlines
            (performAll (R := plainRenderer) threeHeadings titledWriter)) = 1.
Proof.
  assert (Hlinked : linked titledWriter)
    by (intros k id Hk; destruct k; discriminate Hk).
  assert (Hfit : levelsFit (R := plainRenderer) threeHeadings titledWriter
                 = true)
    by (vm_compute; reflexivity).
  split; [exact titledWriter_ready|].
  split; [exact Hlinked|]. split; [exact Hfit|].
  destruct (outline_path_follows_headings (R := plainRenderer)
              threeHeadings titledWriter titledWriter_ready Hlinked Hfit)
    as (Hall & _ & Hlen & _).
  split; [exact Hall|exact Hlen].
Defined.

Lemma addOutline_rejects_skipped_level_witness :
  (Z.of_nat (length (docOutlines freshWriter)) < 2)%Z /\
  addOutline 2 "Deep" freshWriter =
    (freshWriter,
     Throw "A header can only be nested inside headers with level - 1. level=2, previousLevel=-1").
Proof.
  assert (Hlevel : (Z.of_nat (length (docOutlines freshWriter)) < 2)%Z)
    by (vm_compute; reflexivity).
  split; [exact Hlevel|].
  destruct (addOutline_rejects_skipped_level (R := plainRenderer) freshWriter 2
              "Deep" None "GET" "/users" Hlevel) as (Hrun & _).
  exact Hrun.
Defined.

(** C3, the claim as stated, fails: on a writer with its title page, when
    the block throws, the style that [withStyle] pushed is still on the
    stack afterwards. *)
Lemma withStyle_leaks_style_when_block_throws :
  live titledWriter /\
  outcome (withStyle boldPatch failingBlock titledWriter) =
    Throw "Error: block failed" /\
  styleStack titledWriter = [] /\
  length (styleStack (state (withStyle boldPatch failingBlock titledWriter)))
    = 1 /\
  styleStack (state (withStyle boldPatch failingBlock titledWriter))
    <> styleStack titledWriter.
Proof.
  split; [exact titledWriter_live|].
  split; [vm_compute; reflexivity|]. split; [vm_compute; reflexivity|].
  split; [vm_compute; reflexivity|].
  vm_compute. discriminate.
Qed.

Lemma withStyle_pops_when_block_returns_witness :
  let block := fun _ : @TextStyle qnum =>
                 textImpl (R := plainRenderer) "Users" noOptions in
  let pushed := state (pushStyle boldPatch titledWriter) in
  let merged := mergeStyle (currentStyle titledWriter) boldPatch in
  live titledWriter /\
  live (state (block merged pushed)) /\
  block merged pushed = (state (block merged pushed), Ok tt) /\
  styleStack (state (block merged pushed)) =
    (styleStack titledWriter ++ [merged])%list /\
  baseStyle (state (block merged pushed)) = baseStyle titledWriter /\
  styleStack (state (withStyle boldPatch block titledWriter)) =
    styleStack titledWriter.
Proof.
  cbv zeta.
  assert (Hafter :
    live (state (textImpl (R := plainRenderer) "Users" noOptions
                   (state (pushStyle boldPatch titledWriter)))))
    by concrete_contract.
  assert (Hfn :
    textImpl (R := plainRenderer) "Users" noOptions
      (state (pushStyle boldPatch titledWriter)) =
    (state (textImpl (R := plainRenderer) "Users" noOptions
              (state (pushStyle boldPatch titledWriter))), Ok tt))
    by (vm_compute; reflexivity).
  assert (Hstack :
    styleStack (state (textImpl (R := plainRenderer) "Users" noOptions
                         (state (pushStyle boldPatch titledWriter)))) =
    (styleStack titledWriter ++
     [mergeStyle (currentStyle titledWriter) boldPatch])%list)
    by (vm_compute; reflexivity).
  assert (Hbase :
    baseStyle (state (textImpl (R := plainRenderer) "Users" noOptions
                        (state (pushStyle boldPatch titledWriter)))) =
    baseStyle titledWriter)
    by (vm_compute; reflexivity).
  split; [exact titledWriter_live|]. split; [exact Hafter|].
  split; [exact Hfn|]. split; [exact Hstack|]. split; [exact Hbase|].
  destruct (withStyle_pops_when_block_returns boldPatch
              (fun _ => textImpl (R := plainRenderer) "Users" noOptions)
              titledWriter _ (Ok tt) titledWriter_live Hafter
              Hfn Hstack Hbase)
    as (_ & Hpopped & _).
  exact Hpopped.
Defined.

(** C4, the claim as stated, fails: with a configuration that has no
    [indentStep], the style in force is not the defaults overlaid with the
    configuration: its [indentStep] is undefined, not the default 12. *)
Lemma external_style_is_not_overlaid_on_defaults :
  style (constructor (R := plainRenderer) None (Some marginsOnlyStyle))
    <> overlay defaultStyle marginsOnlyStyle /\
  indentStep (style_format
    (style (constructor (R := plainRenderer) None (Some marginsOnlyStyle))))
    = None /\
  indentStep (style_format (overlay defaultStyle marginsOnlyStyle))
    = Some (Num 12).
Proof.
  split; [|split; reflexivity].
  intros E. apply (f_equal (fun st => indentStep (style_format st))) in E.
  discriminate E.
Qed.

(** C5, the claim as stated, fails: on a writer with its title page,
    after a text placed at [x = 100] the cursor stands at 100; a push
    followed by a pop leaves it at the left margin of the current style,
    70. *)
Lemma push_pop_moves_cursor_to_margin :
  let w := state (text (R := plainRenderer) "note" emptyPatch (atX (Num 100))
                    titledWriter) in
  live w /\
  doc_x (doc w) = Some (Num 100) /\
  doc_x (doc (state (popStyle (state (pushStyle boldPatch w))))) =
    Some (Num 70) /\
  doc_x (doc (state (popStyle (state (pushStyle boldPatch w))))) <>
    doc_x (doc w).
Proof.
  cbv zeta. split; [concrete_contract|].
  split; [vm_compute; reflexivity|]. split; [vm_compute; reflexivity|].
  vm_compute. discriminate.
Qed.

Lemma push_pop_restores_style_witness :
  live titledWriter /\
  styleStack (state (popStyle (state (pushStyle boldPatch titledWriter)))) =
    styleStack titledWriter /\
  currentStyle (state (popStyle (state (pushStyle boldPatch titledWriter)))) =
    currentStyle titledWriter /\
  doc_x (doc (state (popStyle (state (pushStyle boldPatch titledWriter))))) =
    Some (Num 70) /\
  doc_font (doc (state (popStyle (state (pushStyle boldPatch titledWriter)))))
    = Some "Helvetica".
Proof.
  split; [exact titledWriter_live|].
  destruct (push_pop_restores_style boldPatch titledWriter titledWriter_live)
    as (Hstack & Hcur & _ & _ & Hx & Hfont & _).
  split; [exact Hstack|]. split; [exact Hcur|].
  split; [rewrite Hx|rewrite Hfont]; vm_compute; reflexivity.
Defined.

Lemma leftMargin_accumulates_witness :
  live titledWriter /\
  leftMargin (currentStyle titledWriter) = Some (Num 70) /\
  pLeftMargin (indentBy (Num 5)) = Some (Some (Num 5)) /\
  indentStep (style_format (style titledWriter)) = Some (Num 12) /\
  leftMargin (mergeStyle (currentStyle titledWriter) (indentBy (Num 5))) =
    Some (Num 75) /\
  leftMargin (currentStyle
    (state (indentEnd (state (indentStart (state (indentStart titledWriter)))))))
    = Some (Num 82).
Proof.
  assert (Hm : leftMargin (currentStyle titledWriter) = Some (Num 70))
    by (vm_compute; reflexivity).
  assert (Hd : pLeftMargin (indentBy (Num 5)) = Some (Some (Num 5)))
    by reflexivity.
  assert (Hstep : indentStep (style_format (style titledWriter)) =
                  Some (Num 12))
    by (vm_compute; reflexivity).
  split; [exact titledWriter_live|].
  split; [exact Hm|]. split; [exact Hd|]. split; [exact Hstep|].
  destruct (leftMargin_accumulates (indentBy (Num 5))
              titledWriter (Num 70) (Num 5) (Num 12) titledWriter_live
              Hm Hd Hstep)
    as ((_ & _ & Hmerged & _) & (Hseq & _)).
  split; [rewrite Hmerged|rewrite Hseq]; vm_compute; reflexivity.
Defined.




Lemma dataFields_preserves_cursor_x_witness :
  ready usersWriter /\
  outcome (dataFields (R := plainRenderer) userFields usersWriter) = Ok tt /\
  doc_x (doc (state (dataFields (R := plainRenderer) userFields usersWriter)))
    = Some (Num 70).
Proof.
  split; [exact usersWriter_ready|].
  destruct (dataFields_preserves_cursor_x (R := plainRenderer) userFields
              usersWriter usersWriter_ready) as (Hout & Hx & _).
  split; [exact Hout|].
  rewrite Hx. vm_compute. reflexivity.
Defined.

Lemma heading_adds_one_bookmark_witness :
  let w := state (header (R := plainRenderer) 0 "Users" None titledWriter) in
  ready w /\
  (0 <= 1 <= Z.of_nat (length (docOutlines w)))%Z /\
  outcome (header (R := plainRenderer) 1 "List users" None w) = Ok tt /\
  doc_outline (doc (state (header (R := plainRenderer) 1 "List users" None w)))
    = [{| item_parent := None; item_title := "Users" |};
       {| item_parent := Some 0; item_title := "List users" |}].
Proof.
  cbv zeta.
  assert (Hready :
    ready (state (header (R := plainRenderer) 0 "Users" None titledWriter)))
    by concrete_contract.
  assert (Hlevel :
    (0 <= 1 <= Z.of_nat (length (docOutlines
       (state (header (R := plainRenderer) 0 "Users" None titledWriter)))))%Z)
    by (vm_compute; split; discriminate).
  split; [exact Hready|]. split; [exact Hlevel|].
  destruct (heading_adds_one_bookmark (R := plainRenderer) 1 "List users"
              None "GET" "/users"
              (state (header (R := plainRenderer) 0 "Users" None titledWriter))
              Hready Hlevel) as ((Hout & Hitems & _) & _).
  split; [exact Hout|].
  rewrite Hitems. vm_compute. reflexivity.
Defined.

Lemma pages_carry_the_section_name_witness :
  live titledWriter /\
  currentSectionName
    (state (perform (R := plainRenderer) (NewSection "Users") titledWriter)) =
    "Users" /\
  pageHeaderNodes
    (state (perform (R := plainRenderer) (NewSection "Users") titledWriter)) =
    [""; "Users"].
Proof.
  split; [exact titledWriter_live|].
  destruct (pages_carry_the_section_name (R := plainRenderer)
              (NewSection "Users") titledWriter titledWriter_live)
    as (Hname & Hnodes).
  split; [exact Hname|].
  rewrite Hnodes. vm_compute. reflexivity.
Defined.

Lemma header_draws_before_it_checks_witness :
  ready titledWriter /\
  (Z.abs 5 < 10 ^ 20)%Z /\
  outcome (header (R := plainRenderer) 5 "Deep" None titledWriter) =
    Throw "A header can only be nested inside headers with level - 1. level=5, previousLevel=-1" /\
  draws titledWriter (header (R := plainRenderer) 5 "Deep" None titledWriter)
    [ShownText (Some "#2A4D69") "Deep" (Some (Num 0)) noOptions].
Proof.
  assert (Hlevel : (Z.abs 5 < 10 ^ 20)%Z) by (vm_compute; reflexivity).
  split; [exact titledWriter_ready|]. split; [exact Hlevel|].
  split; [vm_compute; reflexivity|].
  destruct (header_draws_before_it_checks (R := plainRenderer) 5 "Deep" None
              titledWriter titledWriter_ready Hlevel)
    as (Hstack & ops & Hops & Hshown).
  split; [exact Hstack|].
  exists ops. split; [exact Hops|].
  rewrite Hshown. vm_compute. reflexivity.
Defined.

Lemma apiHeader_draws_banner_witness :
  ready titledWriter /\
  inheritedKey (toLowerCase "GET") = false /\
  draws titledWriter
    (apiHeader (R := plainRenderer) "GET" "/users" 0 titledWriter)
    [ShownText (Some "#333333") "GET" (Some (Num 0)) (continuedOpt true);
     ShownText (Some "#333333") " " (Some (Num 0)) noOptions;
     ShownRect (Some "#4A90E2");
     ShownText (Some "white") "GET" (Some (Num 0)) (continuedOpt true);
     ShownText (Some "#2A4D69") "  /users" (Some (Num 0)) noOptions].
Proof.
  assert (Hkey : inheritedKey (toLowerCase "GET") = false)
    by (vm_compute; reflexivity).
  split; [exact titledWriter_ready|]. split; [exact Hkey|].
  destruct (apiHeader_draws_banner (R := plainRenderer) "GET" "/users" 0
              titledWriter titledWriter_ready Hkey)
    as (Hstack & ops & Hops & Hshown).
  split; [exact Hstack|].
  exists ops. split; [exact Hops|].
  rewrite Hshown. vm_compute. reflexivity.
Defined.



Lemma schemaType_draws_one_line_witness :
  ready usersWriter /\
  outcome (schemaType (R := plainRenderer) "User" (Some "application/json")
             usersWriter) = Ok tt /\
  draws usersWriter
    (schemaType (R := plainRenderer) "User" (Some "application/json")
       usersWriter)
    [ShownText (Some "#333333") "Content: " (Some (Num 0)) (continuedOpt true);
     ShownText (Some "#8A3324") "application/json" (Some (Num 0))
       (continuedOpt true);
     ShownText (Some "#333333") " | " (Some (Num 0)) (continuedOpt true);
     ShownText (Some "#333333") "Type: " (Some (Num 0)) (continuedOpt true);
     ShownText (Some "#8A3324") "User" (Some (Num 0)) noOptions].
Proof.
  split; [exact usersWriter_ready|].
  destruct (schemaType_draws_one_line (R := plainRenderer) "User"
              (Some "application/json") usersWriter usersWriter_ready)
    as (Hout & Hstack & ops & Hops & Hshown).
  split; [exact Hout|]. split; [exact Hstack|].
  exists ops. split; [exact Hops|].
  rewrite Hshown. vm_compute. reflexivity.
Defined.



Lemma finish_always_ends_the_document_witness :
  ready tightPages /\
  outcome (finish (R := flowRenderer) tightPages) = Ok tt /\
  doc_ended (doc (state (finish (R := flowRenderer) tightPages))) = true /\
  length (doc_pages (doc tightPages)) <=
    length (doc_pages (doc (state (finish (R := flowRenderer) tightPages)))).
Proof.
  split; [exact tightPages_ready|].
  exact (finish_always_ends_the_document (R := flowRenderer) tightPages
           tightPages_ready).
Defined.


Lemma newSection_starts_clean_witness :
  let w := state (indentStart titledWriter) in
  ready w /\
  length (styleStack w) = 1 /\
  outcome (newSection (R := plainRenderer) "Users" w) = Ok tt /\
  styleStack (state (newSection (R := plainRenderer) "Users" w)) = [] /\
  doc_page (doc (state (newSection (R := plainRenderer) "Users" w))) = 1 /\
  doc_font (doc (state (newSection (R := plainRenderer) "Users" w))) =
    Some "Helvetica" /\
  doc_ops (doc (state (newSection (R := plainRenderer) "Users" w))) =
    doc_ops (doc w).
Proof.
  cbv zeta.
  assert (Hready :
    ready (state (indentStart titledWriter)))
    by concrete_contract.
  split; [exact Hready|]. split; [vm_compute; reflexivity|].
  destruct (newSection_starts_clean (R := plainRenderer) "Users"
              (state (indentStart titledWriter)) Hready)
    as (Hout & Hstack & _ & Hfont & _ & _ & _ & Hpage & Hops & _).
  split; [exact Hout|]. split; [exact Hstack|].
  split; [rewrite Hpage; vm_compute; reflexivity|].
  split; [rewrite Hfont; vm_compute; reflexivity|exact Hops].
Defined.

Lemma indentation_nests_witness :
  live titledWriter /\
  leftMargin (currentStyle
    (performAll (R := plainRenderer) (replicate 2 IndentStart) titledWriter))
    = Some (Num 94) /\
  styleStack
    (performAll (R := plainRenderer) (replicate 2 IndentEnd)
       (performAll (R := plainRenderer) (replicate 2 IndentStart)
          titledWriter)) = styleStack titledWriter.
Proof.
  split; [exact titledWriter_live|].
  destruct (indentation_nests (R := plainRenderer) 2 1 titledWriter
              titledWriter_live) as (_ & Hmargin & _ & Hback).
  split; [|exact Hback].
  rewrite Hmargin. vm_compute. reflexivity.
Defined.

Lemma section_pages_share_the_name_witness :
  forallb (fun c : @Call qnum => negb (opensSection c))
    [Para "All about users."; SubHeader "Fields";
     DataFields userFields] = true /\
  currentSectionName
    (performAll (R := breakingRenderer)
       [Para "All about users."; SubHeader "Fields"; DataFields userFields]
       sectionWriter) = "Users".
Proof.
  split; [reflexivity|].
  destruct (section_pages_share_the_name (R := breakingRenderer)
              [Para "All about users."; SubHeader "Fields";
               DataFields userFields] sectionWriter eq_refl) as (Hname & _).
  exact Hname.
Defined.

Lemma legacy_withStyle_run_witness :
  Legacy.withStyle legacyBold (fun _ => ret tt) legacyWriter =
  (state (Legacy.popStyle
            (state (Legacy.pushStyle legacyBold legacyWriter))),
   Ok tt).
Proof.
  exact (legacy_withStyle_run legacyBold (fun _ => ret tt)
           legacyWriter
           (state (Legacy.pushStyle legacyBold legacyWriter))
           (Ok tt) eq_refl).
Defined.
